(** * Sequence selection and subject reconciliation: a Rocq model

    Shallow embedding of the decision logic of
      - scripts/convert_ppmi_dicom_to_nifti.py  (pattern classifier, priority
        ranker, session key, candidate discovery, sequence selector),
      - scripts/match_subjects_with_volumes.py  (identifier normalizer),
      - scripts/combine_volumes_with_subjects.py (per-dataset join, QC gate),
    and, further down, of the output names and the statistics of the
    conversion script, the left join of the matching script and the column
    selection of the combining script.

    Python [str] values are modelled as lists of characters.  A character is a
    code point below 256 (the type [ascii]); on that range [str.lower], the
    regular-expression class [\d] and [re.IGNORECASE] behave as written
    below.  The dictionaries [select_best_sequences] mutates live in an
    explicit store; pandas tables are lists of rows; a script that stops
    early ends in an [outcome]. *)

From Stdlib Require Import String Ascii Bool Arith Lia QArith List Sorted.
From Stdlib Require DecimalString DecimalNat.
From Stdlib Require Import Permutation.
Import ListNotations.

Local Open Scope list_scope.
Local Open Scope nat_scope.

(** ** Python strings *)

Module PyStr.

Definition str := list ascii.

(** [py "abc"] is the Python literal ['abc']. *)
Definition py (s : string) : str := list_ascii_of_string s.

Definition str_eqb (a b : str) : bool :=
  if list_eq_dec ascii_dec a b then true else false.

(** [c.lower()] for one character: the letters A-Z and the Latin-1 capitals
    U+00C0..U+00DE (without the multiplication sign U+00D7) move 32 places
    up, every other code point below 256 is unchanged. *)
Definition lower_char (c : ascii) : ascii :=
  let n := nat_of_ascii c in
  if ((65 <=? n) && (n <=? 90))
     || ((192 <=? n) && (n <=? 222) && negb (n =? 215))
  then ascii_of_nat (n + 32)
  else c.

(** [s.lower()] *)
Definition lower (s : str) : str := map lower_char s.

(** [s.startswith(p)] *)
Fixpoint startswith (p s : str) : bool :=
  match p, s with
  | [], _ => true
  | _ :: _, [] => false
  | a :: p', b :: s' => Ascii.eqb a b && startswith p' s'
  end.

(** [s.endswith(p)] *)
Definition endswith (p s : str) : bool := startswith (rev p) (rev s).

(** [w in s] on strings: [w] occurs in [s] as a contiguous block. *)
Fixpoint contains (w s : str) : bool :=
  startswith w s ||
  match s with
  | [] => false
  | _ :: s' => contains w s'
  end.

(** [s.replace(c, '')] for a one-character [c]. *)
Definition remove_char (c : ascii) (s : str) : str :=
  filter (fun x => negb (Ascii.eqb x c)) s.

(** Slices [s[:n]] and [s[n:]] are [firstn n s] and [skipn n s]. *)

(** *** The fragment of [re] the scripts use

    Patterns are sequences of single-character atoms, each taken once or
    under a star.  [re.match] anchors at the start of the string only. *)

Inductive atom : Type :=
| AnyChar            (* .   any character but a newline *)
| Lit (c : ascii)    (* a literal character *)
| Digit.             (* \d  *)

Inductive piece : Type :=
| Once (a : atom)
| Star (a : atom).

Definition regex := list piece.

Definition newline : ascii := ascii_of_nat 10.

Definition is_digit (c : ascii) : bool :=
  let n := nat_of_ascii c in (48 <=? n) && (n <=? 57).

(** [ic] is the [re.IGNORECASE] flag. *)
Definition atom_ok (ic : bool) (a : atom) (c : ascii) : bool :=
  match a with
  | AnyChar => negb (Ascii.eqb c newline)
  | Lit p => if ic then Ascii.eqb (lower_char c) (lower_char p)
             else Ascii.eqb c p
  | Digit => is_digit c
  end.

(** [re_match ic r s] is true when [re.match(r, s)] (with flag [ic]) returns
    a match object: some prefix of [s] is matched by [r]. *)
Fixpoint re_match (ic : bool) (r : regex) (s : str) : bool :=
  match r with
  | [] => true
  | Once a :: r' =>
      match s with
      | [] => false
      | c :: s' => atom_ok ic a c && re_match ic r' s'
      end
  | Star a :: r' =>
      (fix star (t : str) : bool :=
         re_match ic r' t ||
         match t with
         | [] => false
         | c :: t' => atom_ok ic a c && star t'
         end) s
  end.

Definition lits (w : str) : regex := map (fun c => Once (Lit c)) w.

(** The pattern [.*w.*] *)
Definition dotstar (w : str) : regex :=
  Star AnyChar :: lits w ++ [Star AnyChar].

End PyStr.

Import PyStr.

(** ** scripts/convert_ppmi_dicom_to_nifti.py *)

Module Selector.

Definition T1_PATTERNS : list regex :=
  [ dotstar (py "T1"); dotstar (py "MPRAGE");
    dotstar (py "FSPGR"); dotstar (py "SPGR") ].

Definition EXCLUDE_PATTERNS : list regex :=
  [ dotstar (py "localizer"); dotstar (py "scout");
    dotstar (py "calibration") ].

Definition SEQUENCE_PRIORITY : list str :=
  [ py "3D_T1-weighted"; py "3D_T1_weighted"; py "MPRAGE_GRAPPA";
    py "MPRAGE"; py "SAG_3D_MPRAGE"; py "SAG_3D_T1_MPRAGE";
    py "3D_T1_MPRAGE"; py "SAG_3D_FSPGR"; py "SAG_3D_T1_FSPGR";
    py "FSPGR" ].

(** The exclude loop runs first and returns [False] at its first hit; only
    then the T1 loop runs, on the lowered name and with [re.IGNORECASE]. *)
Definition is_t1_sequence (sequence_name : str) : bool :=
  let sequence_lower := lower sequence_name in
  if existsb (fun pattern => re_match false pattern sequence_lower)
       EXCLUDE_PATTERNS
  then false
  else if existsb (fun pattern => re_match true pattern sequence_lower)
            T1_PATTERNS
       then true
       else false.

(** The [for idx, priority_seq in enumerate(table)] loop, started at [idx]:
    the index of the first entry found in the name, if any. *)
Fixpoint first_hit (idx : nat) (table : list str) (sequence_name : str)
  : option nat :=
  match table with
  | [] => None
  | priority_seq :: rest =>
      if contains (lower priority_seq) (lower sequence_name)
      then Some idx
      else first_hit (S idx) rest sequence_name
  end.

Definition priority_in (table : list str) (sequence_name : str) : nat :=
  match first_hit 0 table sequence_name with
  | Some idx => idx
  | None => length table
  end.

Definition get_sequence_priority (sequence_name : str) : nat :=
  priority_in SEQUENCE_PRIORITY sequence_name.

(** The pattern [(\d{4})-(\d{2})-(\d{2})]; its three groups have fixed
    extents [s[0:4]], [s[5:7]] and [s[8:10]]. *)
Definition DATE_RE : regex :=
  [ Once Digit; Once Digit; Once Digit; Once Digit; Once (Lit "-"%char);
    Once Digit; Once Digit; Once (Lit "-"%char); Once Digit; Once Digit ].

Definition extract_session_date (timestamp_str : str) : str :=
  if re_match false DATE_RE timestamp_str
  then firstn 4 timestamp_str
         ++ firstn 2 (skipn 5 timestamp_str)
         ++ firstn 2 (skipn 8 timestamp_str)
  else firstn 8
         (remove_char "."%char
            (remove_char "_"%char (remove_char "-"%char timestamp_str))).

(** *** The acquisition tree

    A directory lists its entries in iteration order; [Path.iterdir] yields
    them in that order. *)
#[warnings="-register-all"]
Inductive node : Type :=
| File
| Dir (entries : list (str * node)).

Definition is_dir (n : node) : bool :=
  match n with Dir _ => true | File => false end.

(** [Path.glob("*.dcm")]: the entries of a directory whose name ends in
    [.dcm], files and directories alike; nothing on a path that is not a
    directory. *)
Definition glob_dcm (n : node) : list (str * node) :=
  match n with
  | Dir entries => filter (fun e => endswith (py ".dcm") (fst e)) entries
  | File => []
  end.

Fixpoint lookup (name : str) (entries : list (str * node)) : option node :=
  match entries with
  | [] => None
  | (n, d) :: rest => if str_eqb n name then Some d else lookup name rest
  end.

(** One discovered series: the dictionary built at the end of the inner
    loop of [find_t1_sequences].  A path is the list of names below
    [DICOM_ROOT]. *)
Record Candidate : Type := mkCandidate {
  subject_id : str;
  sequence_name : str;
  session_date : str;
  timestamp : str;
  dicom_path : list str;
  num_files : nat;
  priority : nat
}.

(** The body of the loop over timestamp directories, for a timestamp
    directory with entries [dicom_dirs] at [path]. *)
Definition scan_timestamp (subject seq_name : str) (path : list str)
    (timestamp_name : str) (dicom_dirs : list (str * node))
  : option Candidate :=
  let session := extract_session_date timestamp_name in
  match dicom_dirs with
  | [] => None
  | _ =>
      let '(dicom_at, dicom_dir) :=
        match dicom_dirs with
        | [(child, d)] => (path ++ [child], d)
        | _ => (path, Dir dicom_dirs)
        end in
      let dicom_files := glob_dcm dicom_dir in
      match dicom_files with
      | [] => None
      | _ => Some (mkCandidate subject seq_name session timestamp_name
                     dicom_at (length dicom_files)
                     (get_sequence_priority seq_name))
      end
  end.

Definition scan_sequence (subject seq_name : str) (path : list str)
    (timestamps : list (str * node)) : list Candidate :=
  flat_map
    (fun e =>
       match snd e with
       | File => []
       | Dir dicom_dirs =>
           match scan_timestamp subject seq_name (path ++ [fst e])
                   (fst e) dicom_dirs with
           | Some c => [c]
           | None => []
           end
       end)
    timestamps.

(** [find_t1_sequences]: [None] stands for the exception [iterdir] raises
    when [DICOM_ROOT / subject_id] exists and is not a directory. *)
Definition find_t1_sequences (dicom_root : list (str * node))
    (subject : str) : option (list Candidate) :=
  match lookup subject dicom_root with
  | None => Some []
  | Some File => None
  | Some (Dir seq_dirs) =>
      Some (flat_map
              (fun e =>
                 match snd e with
                 | File => []
                 | Dir timestamps =>
                     if is_t1_sequence (fst e)
                     then scan_sequence subject (fst e)
                            [subject; fst e] timestamps
                     else []
                 end)
              seq_dirs)
  end.

(** *** Selection

    The dictionaries [find_t1_sequences] builds are objects.  The list
    handed to [select_best_sequences] holds references to them, and the
    function writes the ['run'] key into the objects it selects; the list it
    returns holds references to the same objects. *)

Definition ref := nat.

Record SeqDict : Type := mkSeqDict {
  info : Candidate;            (* the seven keys set at discovery *)
  run : option (option nat)    (* the ['run'] key: absent, [None] or a number *)
}.

Definition store := ref -> SeqDict.

(** [seq['run'] = v] *)
Definition set_run (st : store) (seq : ref) (v : option nat) : store :=
  fun r => if r =? seq then mkSeqDict (info (st r)) (Some v) else st r.

Definition no_candidate : Candidate := mkCandidate [] [] [] [] [] 0 0.

(** The list and the store after discovery: the dictionary found in place
    [n] is object [n], a fresh object without a ['run'] key. *)
Definition discovered (found : list Candidate) : list ref * store :=
  (seq 0 (length found),
   fun r => mkSeqDict (nth r found no_candidate) None).

Section Keyed.

Context {A : Type}.

(** [sessions[key(seq)].append(seq)], creating the key at the end of the
    dictionary when it is new (dictionaries keep insertion order). *)
Fixpoint add_to_session (key : A -> str) (seq : A)
    (sessions : list (str * list A)) : list (str * list A) :=
  match sessions with
  | [] => [(key seq, [seq])]
  | (k, seqs) :: rest =>
      if str_eqb k (key seq)
      then (k, seqs ++ [seq]) :: rest
      else (k, seqs) :: add_to_session key seq rest
  end.

Definition group_by_session (key : A -> str) (sequences : list A)
  : list (str * list A) :=
  fold_left (fun sessions seq => add_to_session key seq sessions)
    sequences [].

(** [l.sort(key=key)] is a stable sort; a stable sort has one possible
    result, computed here by insertion: a new head goes before the first
    element whose key is not smaller. *)
Fixpoint insert_by (key : A -> nat) (x : A) (l : list A) : list A :=
  match l with
  | [] => [x]
  | y :: l' =>
      if key y <? key x
      then y :: insert_by key x l'
      else x :: y :: l'
  end.

Fixpoint sort_by (key : A -> nat) (l : list A) : list A :=
  match l with
  | [] => []
  | x :: l' => insert_by key x (sort_by key l')
  end.

End Keyed.

(** The loop [for run_idx, seq in enumerate(best_seqs, start=run_idx)]. *)
Fixpoint assign_runs (many : bool) (run_idx : nat) (best_seqs : list ref)
    (st : store) (selected : list ref) : store * list ref :=
  match best_seqs with
  | [] => (st, selected)
  | seq :: rest =>
      assign_runs many (S run_idx) rest
        (set_run st seq (if many then Some run_idx else None))
        (selected ++ [seq])
  end.

(** The body of the loop over [sessions.items()].  A list of the session
    dictionary is never empty, so [session_seqs[0]] exists. *)
Definition select_in_session (session_seqs : list ref) (st : store)
    (selected : list ref) : store * list ref :=
  let priority_of x := priority (info (st x)) in
  match sort_by priority_of session_seqs with
  | [] => (st, selected)
  | (first :: _) as sorted =>
      let best_priority := priority_of first in
      let best_seqs :=
        filter (fun s => priority_of s =? best_priority) sorted in
      assign_runs (1 <? length best_seqs) 1 best_seqs st selected
  end.

(** [select_best_sequences]: the store after the call and the list
    returned. *)
Definition select_best_sequences (sequences : list ref) (st : store)
  : store * list ref :=
  match sequences with
  | [] => (st, [])
  | _ =>
      fold_left
        (fun acc kv => select_in_session (snd kv) (fst acc) (snd acc))
        (group_by_session (fun seq => session_date (info (st seq)))
           sequences)
        (st, [])
  end.

End Selector.

Import Selector.

(** ** scripts/match_subjects_with_volumes.py *)

Module Matcher.

(** [normalize_subject_id], applied to a value that is already a string. *)
Definition normalize_subject_id (sid : str) : str :=
  if startswith (py "sub-") sid then skipn 4 sid else sid.

End Matcher.

Import Matcher.

(** ** scripts/combine_volumes_with_subjects.py

    A table read by [pd.read_csv] is a list of column names and a list of
    rows, each row holding one cell per column.  A cell is a float, the
    missing value, or a text.  Finite floats are the rationals they denote,
    so that comparisons are exact. *)

Module Reconciler.

Inductive cell : Type :=
| NaN
| Num (q : Q)
| Text (s : str).

Definition row := list cell.

Record DataFrame : Type := mkDataFrame {
  columns : list str;
  rows : list row
}.

Definition has_column (c : str) (cols : list str) : bool :=
  existsb (str_eqb c) cols.

Fixpoint position (c : str) (cols : list str) : option nat :=
  match cols with
  | [] => None
  | c' :: rest =>
      if str_eqb c' c then Some 0
      else option_map S (position c rest)
  end.

(** The cell of row [r] in column [c] of a table with columns [cols]. *)
Definition get (cols : list str) (r : row) (c : str) : cell :=
  match position c cols with
  | Some i => nth i r NaN
  | None => NaN
  end.

(** [df[col] == text], row by row. *)
Definition cell_is_text (t : str) (c : cell) : bool :=
  match c with
  | Text s => str_eqb s t
  | _ => false
  end.

(** Equality of join keys: [merge] pairs equal values, and pairs missing
    keys with each other.  Keys of different kinds never pair (pandas
    refuses some such merges; identifier columns here hold one kind). *)
Definition key_eqb (a b : cell) : bool :=
  match a, b with
  | NaN, NaN => true
  | Num p, Num q => Qeq_bool p q
  | Text s, Text t => str_eqb s t
  | _, _ => false
  end.

Fixpoint remove_nth {A : Type} (i : nat) (l : list A) : list A :=
  match i, l with
  | _, [] => []
  | 0, _ :: l' => l'
  | S i', x :: l' => x :: remove_nth i' l'
  end.

Definition drop_column (c : str) (df : DataFrame) : DataFrame :=
  match position c (columns df) with
  | Some i => mkDataFrame (remove_nth i (columns df))
                (map (remove_nth i) (rows df))
  | None => df
  end.

(** [left.merge(right, left_on=left_on, right_on=right_on, how='inner')]:
    one output row for every pair of a left row and a right row with equal
    keys, in the order of the left rows.  When both keys carry one name the
    result keeps a single key column; any other name the two tables share
    gets the suffixes [_x] and [_y]. *)
Definition merge (left right : DataFrame) (left_on right_on : str)
  : DataFrame :=
  let same := str_eqb left_on right_on in
  let right' := if same then drop_column right_on right else right in
  let shared c :=
    has_column c (columns left) && has_column c (columns right') in
  let rename sfx c := if shared c then c ++ py sfx else c in
  mkDataFrame
    (map (rename "_x"%string) (columns left)
       ++ map (rename "_y"%string) (columns right'))
    (flat_map
       (fun l =>
          map (fun r =>
                 l ++ (if same
                       then match position right_on (columns right) with
                            | Some i => remove_nth i r
                            | None => r
                            end
                       else r))
            (filter (fun r =>
                       key_eqb (get (columns left) l left_on)
                               (get (columns right) r right_on))
               (rows right)))
       (rows left)).

(** [pd.concat(frames, ignore_index=True)]: the columns in order of first
    appearance, the rows of every frame in turn, with the missing value
    where a frame lacks a column. *)
Definition add_columns (seen cols : list str) : list str :=
  fold_left (fun acc c => if has_column c acc then acc else acc ++ [c])
    cols seen.

Definition union_columns (frames : list DataFrame) : list str :=
  fold_left (fun seen df => add_columns seen (columns df)) frames [].

Definition reindex (cols : list str) (df : DataFrame) : list row :=
  map (fun r => map (get (columns df) r) cols) (rows df).

Definition concat (frames : list DataFrame) : DataFrame :=
  let cols := union_columns frames in
  mkDataFrame cols (flat_map (reindex cols) frames).

(** [infer_dataset] *)
Definition infer_dataset (subject_id : str) : str :=
  if startswith (py "sub-") subject_id then
    if contains (py "OASIS") subject_id || contains (py "OAS") subject_id
    then py "OASIS3"
    else if contains (py "IXI") subject_id then py "IXI"
    else if contains (py "PPMI") subject_id then py "PPMI"
    else if contains (py "SRPBS") subject_id
            || contains (py "SRPB") subject_id
    then py "SRPBS"
    else py "UNKNOWN"
  else if contains (py "_S_") subject_id then py "ADNI"
  else if startswith (py "OAS2_") subject_id then py "OASIS2"
  else if startswith (py "OAS1_") subject_id then py "OASIS1"
  else py "UNKNOWN".

(** [infer_dataset] on a cell: [str(subject_id)] of a number or of the
    missing value holds none of the tokens tested above. *)
Definition infer_dataset_cell (c : cell) : str :=
  match c with
  | Text s => infer_dataset s
  | _ => py "UNKNOWN"
  end.

(** Step 2: the table gets a [dataset] column when it has none. *)
Definition with_dataset_column (subject_col : str) (selected_df : DataFrame)
  : DataFrame :=
  if has_column (py "dataset") (columns selected_df) then selected_df
  else mkDataFrame
         (columns selected_df ++ [py "dataset"])
         (map (fun r =>
                 r ++ [Text (infer_dataset_cell
                               (get (columns selected_df) r subject_col))])
            (rows selected_df)).

(** Step 3, the body of the loop over [volumes_dfs.items()]: [None] is a
    [continue], [Some merged] is what gets appended to [matched_data]; its
    number of rows is the match count printed for the dataset. *)
Definition match_dataset (selected_df : DataFrame) (subject_col : str)
    (dataset : str) (vol_df : DataFrame) : option DataFrame :=
  let dataset_subjects :=
    mkDataFrame (columns selected_df)
      (filter (fun r => cell_is_text dataset
                          (get (columns selected_df) r (py "dataset")))
         (rows selected_df)) in
  match rows dataset_subjects with
  | [] => None
  | _ =>
      let vol_subject_cols :=
        filter (fun col => contains (py "subject") (lower col))
          (columns vol_df) in
      match vol_subject_cols with
      | [] => None
      | vol_subject_col :: _ =>
          Some (merge dataset_subjects vol_df subject_col vol_subject_col)
      end
  end.

(** [matched_data], each frame with the dataset it comes from. *)
Definition matched_data (selected_df : DataFrame) (subject_col : str)
    (volumes_dfs : list (str * DataFrame)) : list (str * DataFrame) :=
  flat_map
    (fun kv =>
       match match_dataset selected_df subject_col (fst kv) (snd kv) with
       | Some merged => [(fst kv, merged)]
       | None => []
       end)
    volumes_dfs.

(** The literals [0.75] and [0.70] as the floats they denote. *)
Definition qc_thresholds : list (str * Q) :=
  [ (py "qc_hippocampus+amygdala", 3 # 4);
    (py "qc_general white matter", 3 # 4);
    (py "qc_general grey matter",
       3152519739159347 # 4503599627370496) ].

(** How the script ends. *)
Inductive outcome (A : Type) : Type :=
| Done (a : A)
| Exit1                 (* exit(1) *)
| Raised.               (* an uncaught exception *)

Arguments Done {A} a.
Arguments Exit1 {A}.
Arguments Raised {A}.

(** [df[df[qc_col] >= threshold]]: a missing value compares false, a text
    cell makes the comparison raise [TypeError]. *)
Fixpoint keep_at_least (cols : list str) (qc_col : str) (threshold : Q)
    (rs : list row) : option (list row) :=
  match rs with
  | [] => Some []
  | r :: rest =>
      match get cols r qc_col, keep_at_least cols qc_col threshold rest with
      | Text _, _ => None
      | _, None => None
      | Num q, Some kept =>
          Some (if Qle_bool threshold q then r :: kept else kept)
      | NaN, Some kept => Some kept
      end
  end.

(** Step 5, the loop over [qc_thresholds.items()]. *)
Fixpoint apply_qc (thresholds : list (str * Q)) (cols : list str)
    (rs : list row) : option (list row) :=
  match thresholds with
  | [] => Some rs
  | (qc_col, threshold) :: rest =>
      if has_column qc_col cols
      then match keep_at_least cols qc_col threshold rs with
           | Some kept => apply_qc rest cols kept
           | None => None
           end
      else apply_qc rest cols rs
  end.

Definition qc_gate (thresholds : list (str * Q)) (combined_df : DataFrame)
  : outcome DataFrame :=
  match apply_qc thresholds (columns combined_df) (rows combined_df) with
  | Some kept => Done (mkDataFrame (columns combined_df) kept)
  | None => Raised
  end.

(** The column of subject identifiers: [subject_id], else [Subject], else
    the script raises [ValueError]. *)
Definition find_subject_col (loaded : DataFrame) : option str :=
  if has_column (py "subject_id") (columns loaded)
  then Some (py "subject_id")
  else if has_column (py "Subject") (columns loaded)
       then Some (py "Subject")
       else None.

(** Steps 2 to 5 of the script, from the loaded tables to [filtered_df].
    [volumes_dfs] lists the datasets whose volumes file exists, in the
    order of [volumes_files]. *)
Definition combine (thresholds : list (str * Q))
    (volumes_dfs : list (str * DataFrame)) (loaded : DataFrame)
  : outcome DataFrame :=
  match find_subject_col loaded with
  | None => Raised
  | Some subject_col =>
      let selected_df := with_dataset_column subject_col loaded in
      match matched_data selected_df subject_col volumes_dfs with
      | [] => Exit1
      | matched => qc_gate thresholds (concat (map snd matched))
      end
  end.

End Reconciler.

Import Reconciler.

(** ** Vocabulary of the properties *)

Module Spec.

(** [w] occurs in [s] as a contiguous block. *)
Definition occurs (w s : str) : Prop :=
  exists pre post, s = pre ++ w ++ post.

(** [entry] is a substring of [label], case ignored. *)
Definition ci_substring (entry label : str) : Prop :=
  occurs (lower entry) (lower label).

(** The label is matched by one of the exclusion (inclusion) patterns, the
    way [is_t1_sequence] applies them. *)
Definition matches_exclusion (label : str) : Prop :=
  exists p, In p EXCLUDE_PATTERNS /\ re_match false p (lower label) = true.

Definition matches_inclusion (label : str) : Prop :=
  exists p, In p T1_PATTERNS /\ re_match true p (lower label) = true.

Definition is_separator (c : ascii) : Prop :=
  c = "-"%char \/ c = "_"%char \/ c = "."%char.

Definition all_digits (s : str) : Prop :=
  Forall (fun c => is_digit c = true) s.

(** [ts] starts with [YYYY-MM-DD], the three fields being [y], [m], [d]. *)
Definition date_prefix (y m d ts : str) : Prop :=
  length y = 4 /\ length m = 2 /\ length d = 2 /\
  all_digits y /\ all_digits m /\ all_digits d /\
  exists rest, ts = y ++ py "-" ++ m ++ py "-" ++ d ++ rest.

(** What [re.match] with [DATE_RE] tests, written out. *)
Definition date_ok (ts : str) : bool :=
  match ts with
  | c0 :: c1 :: c2 :: c3 :: h1 :: c5 :: c6 :: h2 :: c8 :: c9 :: _ =>
      is_digit c0 && is_digit c1 && is_digit c2 && is_digit c3
      && Ascii.eqb h1 "-" && is_digit c5 && is_digit c6
      && Ascii.eqb h2 "-" && is_digit c8 && is_digit c9
  | _ => false
  end.

Definition not_separator (c : ascii) : bool :=
  negb (Ascii.eqb c "-") && negb (Ascii.eqb c "_") && negb (Ascii.eqb c ".").

Section Plan.

Context {A : Type}.
Variable sess : A -> str.
Variable prio : A -> nat.

(** The candidates of session [k], in discovery order. *)
Definition in_session (k : str) (c : A) : bool := str_eqb (sess c) k.

Definition session_group (k : str) (sequences : list A) : list A :=
  filter (in_session k) sequences.

(** [c] has the minimum priority rank of [group]. *)
Definition attains_min (group : list A) (c : A) : bool :=
  forallb (fun d => prio c <=? prio d) group.

(** The candidates of [group] that attain its minimum rank, in discovery
    order. *)
Definition best_of (group : list A) : list A :=
  filter (attains_min group) group.

(** The run values [n] selected candidates of one session get, in order. *)
Definition run_values (n : nat) : list (option nat) :=
  if 1 <? n then map Some (seq 1 n) else repeat None n.

(** The writes of the ['run'] key one session causes, in order. *)
Definition session_writes (group : list A) : list (A * option nat) :=
  List.combine (best_of group) (run_values (length (best_of group))).

(** The list a session dictionary holds under key [k] ([[]] without it). *)
Fixpoint group_of (k : str) (sessions : list (str * list A)) : list A :=
  match sessions with
  | [] => []
  | (k', g) :: rest => if str_eqb k' k then g else group_of k rest
  end.

(** A session dictionary is well formed when its keys are distinct and every
    list holds distinct candidates, of its key only. *)
Definition sessions_ok (sessions : list (str * list A)) : Prop :=
  NoDup (map fst sessions) /\
  Forall (fun kv => Forall (fun c => sess c = fst kv) (snd kv)) sessions /\
  Forall (fun kv => NoDup (snd kv)) sessions.

(** Keys stay distinct and lists stay of one key. *)
Definition keyed (sessions : list (str * list A)) : Prop :=
  NoDup (map fst sessions) /\
  Forall (fun kv => Forall (fun c => sess c = fst kv) (snd kv)) sessions.

(** The order [sort_by prio] sorts by. *)
Definition by_priority (c d : A) : Prop := prio c <= prio d.

End Plan.

(** The store after a list of writes of the ['run'] key. *)
Definition apply_writes (writes : list (ref * option nat)) (st : store)
  : store :=
  fold_left (fun s w => set_run s (fst w) (snd w)) writes st.

(** The keys [select_best_sequences] reads from an object. *)
Definition priority_at (st : store) (r : ref) : nat := priority (info (st r)).

Definition session_at (st : store) (r : ref) : str :=
  session_date (info (st r)).

(** All the writes of a call, session after session. *)
Definition all_writes (st : store) (sequences : list ref)
  : list (ref * option nat) :=
  flat_map (fun kv => session_writes (priority_at st) (snd kv))
    (group_by_session (session_at st) sequences).

(** The entry is one [glob("*.dcm")] returns: its name ends in [.dcm]. *)
Definition dcm_named (e : str * node) : bool :=
  endswith (py ".dcm") (fst e).

(** A subject with one series directory holding one timestamp directory
    with entries [dicom_dirs]. *)
Definition single_tree (subject seq_name timestamp_name : str)
    (dicom_dirs : list (str * node)) : list (str * node) :=
  [(subject, Dir [(seq_name, Dir [(timestamp_name, Dir dicom_dirs)])])].

(** The row holds a number at least [threshold] in column [qc_col]. *)
Definition at_least (cols : list str) (qc_col : str) (threshold : Q)
    (r : row) : bool :=
  match get cols r qc_col with
  | Num q => Qle_bool threshold q
  | _ => false
  end.

(** The row passes every configured filter whose column the table has. *)
Definition passes (thresholds : list (str * Q)) (cols : list str) (r : row)
  : bool :=
  forallb (fun ct => if has_column (fst ct) cols
                     then at_least cols (fst ct) (snd ct) r
                     else true)
    thresholds.

(** The row holds, for every configured field, a number at least its
    threshold; a field the row lacks fails. *)
Definition satisfies_all (thresholds : list (str * Q)) (cols : list str)
    (r : row) : bool :=
  forallb (fun ct => at_least cols (fst ct) (snd ct) r) thresholds.

(** No configured QC column of the table holds a text cell. *)
Definition numeric_qc (thresholds : list (str * Q)) (df : DataFrame) : Prop :=
  forall ct r s,
    In ct thresholds -> has_column (fst ct) (columns df) = true ->
    In r (rows df) -> get (columns df) r (fst ct) <> Text s.

(** The frames of [matched_data] for a run of [combine], each with its
    dataset; the match count printed for a dataset is the number of rows of
    its frame. *)
Definition matches (volumes_dfs : list (str * DataFrame))
    (loaded : DataFrame) : list (str * DataFrame) :=
  match find_subject_col loaded with
  | Some subject_col =>
      matched_data (with_dataset_column subject_col loaded) subject_col
        volumes_dfs
  | None => []
  end.

Definition match_count (kv : str * DataFrame) : nat :=
  length (rows (snd kv)).

(** The keys of a list are pairwise different as join keys. *)
Fixpoint distinct_keys (keys : list cell) : bool :=
  match keys with
  | [] => true
  | k :: rest => negb (existsb (key_eqb k) rest) && distinct_keys rest
  end.

(** The volumes table has one row at most for an identifier, in the column
    the join uses. *)
Definition unique_ids (vol_df : DataFrame) : bool :=
  match filter (fun col => contains (py "subject") (lower col))
          (columns vol_df) with
  | [] => true
  | vol_subject_col :: _ =>
      distinct_keys
        (map (fun r => get (columns vol_df) r vol_subject_col) (rows vol_df))
  end.

End Spec.

Import Spec.

(** ** Concrete inputs *)

Module Examples.

(** Three series of one subject on one day: two MPRAGE series and one FSPGR
    series, each with [.dcm] files in the single child of its timestamp
    directory. *)
Definition three_series_tree : list (str * node) :=
  [(py "3000",
    Dir [(py "MPRAGE",
          Dir [(py "2011-04-05_14_45_45.0",
                Dir [(py "I1", Dir [(py "a.dcm", File);
                                    (py "b.dcm", File)])])]);
         (py "FSPGR",
          Dir [(py "2011-04-05_15_10_00.0",
                Dir [(py "I2", Dir [(py "a.dcm", File)])])]);
         (py "MPRAGE_repeat",
          Dir [(py "2011-04-05_15_30_00.0",
                Dir [(py "I3", Dir [(py "a.dcm", File)])])])])].

Definition three_series : list ref * store :=
  discovered
    match find_t1_sequences three_series_tree (py "3000") with
    | Some found => found
    | None => []
    end.

(** A joined table that has two of the three configured QC columns. *)
Definition two_qc_table : DataFrame :=
  mkDataFrame
    [py "subject_id"; py "dataset"; py "qc_hippocampus+amygdala";
     py "qc_general white matter"]
    [[Text (py "s1"); Text (py "IXI"); Num (7 # 8); Num (7 # 8)]].

(** A joined table with the three QC columns: the first row passes, the
    second lacks its grey-matter score, the third is below a threshold. *)
Definition three_qc_table : DataFrame :=
  mkDataFrame
    [py "subject_id"; py "qc_hippocampus+amygdala";
     py "qc_general white matter"; py "qc_general grey matter"]
    [[Text (py "s1"); Num (7 # 8); Num (13 # 16); Num (3 # 4)];
     [Text (py "s2"); Num (7 # 8); Num (7 # 8); NaN];
     [Text (py "s3"); Num (1 # 2); Num (7 # 8); Num (7 # 8)]].

(** One selected subject of the IXI dataset. *)
Definition one_subject : DataFrame :=
  mkDataFrame [py "subject_id"; py "dataset"]
    [[Text (py "s1"); Text (py "IXI")]].


(** A volumes table with two scans of one subject. *)
Definition volumes_two_scans : list (str * DataFrame) :=
  [(py "IXI",
    mkDataFrame [py "subject_id"; py "vol_left hippocampus"]
      [[Text (py "s1"); Num (3000 # 1)];
       [Text (py "s1"); Num (3100 # 1)]])].

(** A volumes table with one scan per subject, of good quality. *)
Definition volumes_good : list (str * DataFrame) :=
  [(py "IXI",
    mkDataFrame [py "subject_id"; py "qc_general grey matter"]
      [[Text (py "s1"); Num (7 # 8)];
       [Text (py "s7"); Num (7 # 8)]])].

(** What [combine] makes of [one_subject] and [volumes_good]. *)
Definition harmonized_good : DataFrame :=
  mkDataFrame [py "subject_id"; py "dataset"; py "qc_general grey matter"]
    [[Text (py "s1"); Text (py "IXI"); Num (7 # 8)]].

End Examples.

Import Examples.

(** ** Further vocabulary *)

Module Words.

(** The words the patterns of [is_t1_sequence] look for. *)
Definition EXCLUDE_WORDS : list str :=
  [py "localizer"; py "scout"; py "calibration"].

Definition T1_WORDS : list str :=
  [py "T1"; py "MPRAGE"; py "FSPGR"; py "SPGR"].

(** The part of a string before its first newline. *)
Fixpoint first_line (s : str) : str :=
  match s with
  | [] => []
  | c :: s' => if Ascii.eqb c newline then [] else c :: first_line s'
  end.

Definition one_line (s : str) : Prop := Forall (fun c => c <> newline) s.

End Words.

Import Words.

(** ** [convert_to_nifti]: the output name *)

Module Naming.

(** The digits of [n] in base ten. *)
Definition decimal (n : nat) : str :=
  list_ascii_of_string
    (DecimalString.NilEmpty.string_of_uint (Nat.to_uint n)).

(** [f"{n:02d}"]: the digits, with zeros in front up to two characters. *)
Definition format_02d (n : nat) : str :=
  repeat "0"%char (2 - length (decimal n)) ++ decimal n.

(** The name [convert_to_nifti] builds from a selected dictionary: with the
    run when ['run'] is truthy, without it when it is [None] or [0].
    [None] stands for the [KeyError] of a dictionary without a ['run']
    key. *)
Definition nifti_filename (sequence_info : SeqDict) : option str :=
  let subject := subject_id (info sequence_info) in
  let session := session_date (info sequence_info) in
  match run sequence_info with
  | None => None
  | Some (Some (S n)) =>
      Some (py "sub-" ++ subject ++ py "_ses-" ++ session
              ++ py "_run-" ++ format_02d (S n) ++ py "_T1w")
  | Some _ =>
      Some (py "sub-" ++ subject ++ py "_ses-" ++ session ++ py "_T1w")
  end.

(** The directory [main] hands to [convert_to_nifti], below
    [OUTPUT_ROOT]. *)
Definition output_dir (subject_id session_date : str) : list str :=
  [py "sub-" ++ subject_id; py "ses-" ++ session_date; py "anat"].

(** What a ['run'] value means to [if run:]. *)
Definition truthy_run (r : option (option nat)) : option nat :=
  match r with
  | Some (Some (S n)) => Some (S n)
  | _ => None
  end.

Definition no_underscore (s : str) : Prop :=
  Forall (fun c => c <> "_"%char) s.

(** Reading a number back from its digits. *)
Definition parse_decimal (s : str) : option nat :=
  option_map Nat.of_uint
    (DecimalString.NilEmpty.uint_of_string (string_of_list_ascii s)).

(** The name without [sub-], the subject and [_ses-]. *)
Definition name_tail (session : str) (r : option nat) : str :=
  session ++
  match r with
  | Some n => py "_run-" ++ format_02d n ++ py "_T1w"
  | None => py "_T1w"
  end.

End Naming.

Import Naming.

(** ** [main]: the loop over subjects and its statistics *)

Module Runner.

Record Stats : Type := mkStats {
  total_subjects : nat;
  subjects_with_dicom : nat;
  subjects_without_dicom : nat;
  total_sequences : nat;
  successful_conversions : nat;
  failed_conversions : nat;
  total_sessions : nat
}.

Section Main.

(** The world outside the script, and what [convert_to_nifti] does in it
    once the name is built: the output directory is made, dcm2niix runs,
    and the output file is looked for.  The answer is [true] when the run
    succeeded and the file is there, [false] otherwise; [None] when making
    the directory raised. *)
Variable World : Type.
Variable run_dcm2niix :
  World -> list str -> str -> list str -> option (World * bool).

Definition convert_to_nifti (w : World) (sequence_info : SeqDict)
    (output_dir : list str) : option (World * bool) :=
  match nifti_filename sequence_info with
  | None => None
  | Some filename =>
      run_dcm2niix w output_dir filename (dicom_path (info sequence_info))
  end.

(** The loop [for seq in selected] of [main], for one subject. *)
Fixpoint convert_all (subject_id : str) (selected : list ref) (st : store)
    (w : World) (stats : Stats) : option (World * Stats) :=
  match selected with
  | [] => Some (w, stats)
  | seq :: rest =>
      match convert_to_nifti w (st seq)
              (output_dir subject_id (session_date (info (st seq)))) with
      | None => None
      | Some (w', success) =>
          convert_all subject_id rest st w'
            (if success
             then mkStats (total_subjects stats) (subjects_with_dicom stats)
                    (subjects_without_dicom stats) (total_sequences stats)
                    (S (successful_conversions stats))
                    (failed_conversions stats) (total_sessions stats)
             else mkStats (total_subjects stats) (subjects_with_dicom stats)
                    (subjects_without_dicom stats) (total_sequences stats)
                    (successful_conversions stats)
                    (S (failed_conversions stats)) (total_sessions stats))
      end
  end.

(** [len(set(seq['session_date'] for seq in selected))] *)
Definition unique_sessions (selected : list ref) (st : store) : nat :=
  length (nodup (list_eq_dec ascii_dec)
            (map (fun seq => session_date (info (st seq))) selected)).

(** The body of the loop over subjects.  [dicom_root] is the tree below
    [DICOM_ROOT], which the conversions do not write to. *)
Definition process_subject (dicom_root : list (str * node)) (subject : str)
    (w : World) (stats : Stats) : option (World * Stats) :=
  match find_t1_sequences dicom_root subject with
  | None => None
  | Some [] =>
      Some (w, mkStats (total_subjects stats) (subjects_with_dicom stats)
                 (S (subjects_without_dicom stats)) (total_sequences stats)
                 (successful_conversions stats) (failed_conversions stats)
                 (total_sessions stats))
  | Some t1_sequences =>
      let '(refs, st) := discovered t1_sequences in
      let '(st', selected) := select_best_sequences refs st in
      convert_all subject selected st' w
        (mkStats (total_subjects stats) (S (subjects_with_dicom stats))
           (subjects_without_dicom stats)
           (total_sequences stats + length selected)
           (successful_conversions stats) (failed_conversions stats)
           (total_sessions stats + unique_sessions selected st'))
  end.

Fixpoint process_all (dicom_root : list (str * node)) (subjects : list str)
    (w : World) (stats : Stats) : option (World * Stats) :=
  match subjects with
  | [] => Some (w, stats)
  | subject :: rest =>
      match process_subject dicom_root subject w stats with
      | None => None
      | Some (w', stats') => process_all dicom_root rest w' stats'
      end
  end.

(** The loop of [main] with its statistics, from the list of subjects. *)
Definition main_loop (dicom_root : list (str * node)) (subjects : list str)
    (w : World) : option (World * Stats) :=
  process_all dicom_root subjects w
    (mkStats (length subjects) 0 0 0 0 0 0).

End Main.

(** What the statistics keep true while the loop runs, after [done]
    subjects. *)
Definition stats_ok (done : nat) (stats : Stats) : Prop :=
  subjects_with_dicom stats + subjects_without_dicom stats = done /\
  successful_conversions stats + failed_conversions stats
  = total_sequences stats /\
  total_sessions stats <= total_sequences stats /\
  subjects_with_dicom stats <= total_sessions stats.

End Runner.

Import Runner.

(** ** Further vocabulary of the tables *)

Module Tables.


(** A row of a frame, laid out on the columns [cols]. *)
Definition reindex_row (cols : list str) (df : DataFrame) (r : row) : row :=
  map (get (columns df) r) cols.

(** A table whose first QC column holds a text in a row that the second
    filter removes. *)
Definition text_in_removed_row : DataFrame :=
  mkDataFrame [py "qc_a"; py "qc_b"]
    [[Text (py "bad"); Num (1 # 4)]].

End Tables.

Import Tables.

(** ** combine_volumes_with_subjects.py, step 6: the columns kept *)

Module Columns.

Definition demo_cols : list str :=
  [py "subject_id"; py "dataset"; py "age"; py "sex"; py "site";
   py "field_strength"].

Definition volume_cols_of_interest : list str :=
  [py "vol_left hippocampus"; py "vol_right hippocampus";
   py "vol_left cerebral white matter"; py "vol_right cerebral white matter";
   py "vol_left cerebral cortex"; py "vol_right cerebral cortex";
   py "vol_left thalamus"; py "vol_right thalamus";
   py "vol_total intracranial"; py "vol_brain-stem"].

(** [final_cols]: the demographic and volume columns the filtered table
    has, then the columns of the combined table whose name starts with
    [qc_] and that the filtered table has. *)
Definition final_cols (combined_df filtered_df : DataFrame) : list str :=
  let present c := has_column c (columns filtered_df) in
  let qc_cols := filter (startswith (py "qc_")) (columns combined_df) in
  filter present demo_cols
    ++ filter present volume_cols_of_interest
    ++ filter present qc_cols.

(** [filtered_df[final_cols]], before the derived metrics are added. *)
Definition final_df (combined_df filtered_df : DataFrame) : DataFrame :=
  mkDataFrame (final_cols combined_df filtered_df)
    (reindex (final_cols combined_df filtered_df) filtered_df).

End Columns.

Import Columns.

(** ** match_subjects_with_volumes.py: the body of the loop *)

Module MatchScript.

Section Body.

(** [str(sid)] on the numbers of the two [subject_id] columns; how a number
    prints depends on the type of its column. *)
Variable repr_subjects : Q -> str.
Variable repr_volumes : Q -> str.

Definition id_text (repr : Q -> str) (c : cell) : str :=
  match c with
  | Text s => s
  | Num q => repr q
  | NaN => py "nan"
  end.

(** The column [subject_id_normalized] of a table, beside its rows; [None]
    is the [KeyError] of a table without a [subject_id] column. *)
Definition with_normalized (repr : Q -> str) (df : DataFrame)
  : option (list (str * row)) :=
  if has_column (py "subject_id") (columns df)
  then Some (map (fun r =>
                    (normalize_subject_id
                       (id_text repr (get (columns df) r (py "subject_id"))),
                     r))
               (rows df))
  else None.

(** [merge(..., how='left', indicator=True)] on the normalized identifiers:
    every subject row with each volumes row of its identifier ([both]), or
    alone when there is none ([left_only]). *)
Definition left_merge (left right : list (str * row))
  : list (row * option row) :=
  flat_map
    (fun l =>
       match filter (fun r => str_eqb (fst l) (fst r)) right with
       | [] => [(snd l, None)]
       | found => map (fun r => (snd l, Some (snd r))) found
       end)
    left.

(** The columns of the two tables once [subject_id_normalized] is set, and
    of their join: the key once, a column of both tables twice, its right
    copy with the suffix [_vol]. *)
Definition key : str := py "subject_id_normalized".

Definition with_key (cols : list str) : list str :=
  if has_column key cols then cols else cols ++ [key].

Definition merged_columns (left_cols right_cols : list str) : list str :=
  with_key left_cols
    ++ map (fun c => if has_column c (with_key left_cols)
                     then c ++ py "_vol" else c)
         (filter (fun c => negb (str_eqb c key)) (with_key right_cols)).

Fixpoint distinct_names (l : list str) : bool :=
  match l with
  | [] => true
  | c :: l' => negb (has_column c l') && distinct_names l'
  end.

(** The joins pandas refuses: a table that has a column named as one of
    the indicator columns, or a suffix that gives two columns one name
    (an error in pandas 2, a warning before). *)
Definition join_refused (left_cols right_cols : list str) : bool :=
  existsb (fun c => has_column c (with_key left_cols)
                    || has_column c (with_key right_cols))
    [py "_left_indicator"; py "_right_indicator"; py "_merge"]
  || negb (distinct_names (merged_columns left_cols right_cols)).

Definition is_both (m : row * option row) : bool :=
  match snd m with Some _ => true | None => false end.

Record Report : Type := mkReport {
  n_subjects : nat;
  merged : list (row * option row);
  n_matched : nat;
  n_missing : nat;
  matched : list (row * option row)
}.

(** The body of the loop for a dataset that has a volumes table; [None] is
    an exception.  The rows of the join are kept as pairs. *)
Definition match_volumes (dataset_subjects vol_df : DataFrame)
  : option Report :=
  match with_normalized repr_subjects dataset_subjects,
        with_normalized repr_volumes vol_df with
  | Some subjects, Some volumes =>
      if join_refused (columns dataset_subjects) (columns vol_df) then None
      else
        let merged := left_merge subjects volumes in
        Some (mkReport (length (rows dataset_subjects)) merged
                (length (filter is_both merged))
                (length (filter (fun m => negb (is_both m)) merged))
                (filter is_both merged))
  | _, _ => None
  end.

End Body.

End MatchScript.

Import MatchScript.

(** * Properties *)

(** ** Strings *)

Section StringFacts.

Lemma str_eqb_eq (a b : str) : str_eqb a b = true <-> a = b.
Proof.
  unfold str_eqb. destruct (list_eq_dec ascii_dec a b); split; congruence.
Qed.

Lemma str_eqb_refl (a : str) : str_eqb a a = true.
Proof. now apply str_eqb_eq. Qed.

Lemma str_eqb_neq (a b : str) : str_eqb a b = false <-> a <> b.
Proof.
  unfold str_eqb. destruct (list_eq_dec ascii_dec a b); split; congruence.
Qed.

Lemma str_eqb_sym (a b : str) : str_eqb a b = str_eqb b a.
Proof.
  destruct (str_eqb b a) eqn:E.
  - apply str_eqb_eq in E. subst. apply str_eqb_refl.
  - apply str_eqb_neq in E. apply str_eqb_neq. congruence.
Qed.

Lemma startswith_iff (p s : str) :
  startswith p s = true <-> exists r, s = p ++ r.
Proof.
  revert s. induction p as [|a p IH]; intros s; simpl.
  - split; [intros _; now exists s | reflexivity].
  - destruct s as [|b s].
    + split; [discriminate | intros [r Hr]; discriminate].
    + rewrite andb_true_iff, Ascii.eqb_eq, IH. split.
      * intros [-> [r ->]]. now exists r.
      * intros [r Hr]. injection Hr as -> ->. split; [reflexivity | now exists r].
Qed.

Lemma startswith_app (p r : str) : startswith p (p ++ r) = true.
Proof. apply startswith_iff. now exists r. Qed.

Lemma contains_unfold (w s : str) :
  contains w s =
  startswith w s || match s with [] => false | _ :: s' => contains w s' end.
Proof. destruct s; reflexivity. Qed.

Lemma contains_iff (w s : str) : contains w s = true <-> occurs w s.
Proof.
  split.
  - induction s as [|a s IH]; rewrite contains_unfold, orb_true_iff.
    + intros [H | H]; [|discriminate].
      apply startswith_iff in H as [r ->]. now exists [], r.
    + intros [H | H].
      * apply startswith_iff in H as [r ->]. now exists [], r.
      * destruct (IH H) as (pre & post & ->). now exists (a :: pre), post.
  - intros (pre & post & ->).
    induction pre as [|a pre IH]; rewrite contains_unfold; simpl.
    + now rewrite startswith_app.
    + rewrite IH. apply orb_true_r.
Qed.

Lemma contains_false_iff (w s : str) : contains w s = false <-> ~ occurs w s.
Proof.
  rewrite <- contains_iff. destruct (contains w s); split; congruence.
Qed.

End StringFacts.

(** ** Pattern classifier *)

Section Classifier.

(** *** What the patterns [.*w.*] match *)

Lemma re_match_star (ic : bool) (a : atom) (r : regex) (s : str) :
  re_match ic (Star a :: r) s
  = re_match ic r s
    || match s with
       | [] => false
       | c :: t => atom_ok ic a c && re_match ic (Star a :: r) t
       end.
Proof. destruct s; reflexivity. Qed.

Lemma re_match_star_end (ic : bool) (a : atom) (s : str) :
  re_match ic [Star a] s = true.
Proof. rewrite re_match_star. reflexivity. Qed.

Lemma re_match_dot_star (ic : bool) (r : regex) (s : str) :
  re_match ic (Star AnyChar :: r) s = true <->
  exists pre rest,
    s = pre ++ rest /\ Forall (fun c => c <> newline) pre /\
    re_match ic r rest = true.
Proof.
  split.
  - induction s as [|c s IH]; rewrite re_match_star, orb_true_iff.
    + intros [H | H]; [| discriminate]. now exists [], [].
    + intros [H | H].
      * now exists [], (c :: s).
      * apply andb_true_iff in H as [Hc H].
        destruct (IH H) as (pre & rest & -> & Hp & Hr).
        exists (c :: pre), rest. repeat split; [| exact Hr].
        constructor; [| exact Hp]. simpl in Hc.
        apply negb_true_iff, Ascii.eqb_neq in Hc. exact Hc.
  - intros (pre & rest & -> & Hp & Hr).
    induction Hp as [|c pre Hc _ IH].
    + change ([] ++ rest) with rest. now rewrite re_match_star, Hr.
    + change ((c :: pre) ++ rest) with (c :: (pre ++ rest)).
      rewrite re_match_star, IH. unfold atom_ok.
      apply Ascii.eqb_neq in Hc. rewrite Hc. apply orb_true_r.
Qed.

Lemma re_match_lits (r : regex) (w s : str) :
  re_match false (lits w ++ r) s = true <->
  exists rest, s = w ++ rest /\ re_match false r rest = true.
Proof.
  revert s. induction w as [|a w IH]; intros s; simpl.
  - split; [intros H; now exists s | now intros (rest & -> & H)].
  - destruct s as [|c s].
    + split; [discriminate | intros (rest & H & _); discriminate].
    + rewrite andb_true_iff, Ascii.eqb_eq, IH. split.
      * intros [-> (rest & -> & H)]. now exists rest.
      * intros (rest & [= -> ->] & H). split; [reflexivity |].
        now exists rest.
Qed.

(** Without [re.IGNORECASE], [.*w.*] matches the strings that hold [w] with
    no newline before it. *)
Lemma re_match_dotstar (w s : str) :
  re_match false (dotstar w) s = true <->
  exists pre post, s = pre ++ w ++ post /\ Forall (fun c => c <> newline) pre.
Proof.
  unfold dotstar. rewrite re_match_dot_star. split.
  - intros (pre & rest & -> & Hp & Hr).
    apply re_match_lits in Hr as (post & -> & _). now exists pre, post.
  - intros (pre & post & -> & Hp). exists pre, (w ++ post).
    repeat split; [exact Hp |]. apply re_match_lits.
    exists post. split; [reflexivity | apply re_match_star_end].
Qed.

(** The exclusion patterns, read as words: a label is matched when its
    lowered form holds one of the three words, no newline before it. *)
Lemma matches_exclusion_iff (label : str) :
  matches_exclusion label <->
  exists word pre post,
    In word [py "localizer"; py "scout"; py "calibration"] /\
    lower label = pre ++ word ++ post /\
    Forall (fun c => c <> newline) pre.
Proof.
  unfold matches_exclusion, EXCLUDE_PATTERNS. split.
  - intros (p & Hin & Hm).
    destruct Hin as [<- | [<- | [<- | []]]];
      apply re_match_dotstar in Hm as (pre & post & E & Hp);
      eexists _, pre, post; (split; [| split; [exact E | exact Hp]]);
      simpl; auto.
  - intros (word & pre & post & Hin & E & Hp).
    exists (dotstar word). split.
    + destruct Hin as [<- | [<- | [<- | []]]]; simpl; auto.
    + apply re_match_dotstar. now exists pre, post.
Qed.

Lemma excluded_is_not_t1 (label : str) :
  existsb (fun pattern => re_match false pattern (lower label))
    EXCLUDE_PATTERNS = true ->
  is_t1_sequence label = false.
Proof. unfold is_t1_sequence. now intros ->. Qed.

(** C6. A label matched by an exclusion pattern and by an inclusion pattern
    is rejected by [is_t1_sequence]; the label [Localizer_T1] is matched by
    both and is rejected. *)
Theorem exclusion_precedence :
  (forall label,
      matches_exclusion label -> matches_inclusion label ->
      is_t1_sequence label = false)
  /\ matches_exclusion (py "Localizer_T1")
  /\ matches_inclusion (py "Localizer_T1")
  /\ is_t1_sequence (py "Localizer_T1") = false.
Proof.
  assert (H : forall label, matches_exclusion label ->
                            is_t1_sequence label = false).
  { intros label (p & Hin & Hm). apply excluded_is_not_t1.
    apply existsb_exists. now exists p. }
  assert (He : matches_exclusion (py "Localizer_T1")).
  { exists (dotstar (py "localizer")). split; [now left | reflexivity]. }
  split; [| split; [| split]].
  - intros label Hex _. now apply H.
  - exact He.
  - exists (dotstar (py "T1")). split; [now left | reflexivity].
  - now apply H.
Qed.

Lemma exclusion_precedence_witness :
  matches_exclusion (py "Scout_MPRAGE")
  /\ matches_inclusion (py "Scout_MPRAGE")
  /\ is_t1_sequence (py "Scout_MPRAGE") = false.
Proof.
  assert (He : matches_exclusion (py "Scout_MPRAGE")).
  { exists (dotstar (py "scout")). split; [right; now left | reflexivity]. }
  assert (Hi : matches_inclusion (py "Scout_MPRAGE")).
  { exists (dotstar (py "MPRAGE")). split; [right; now left | reflexivity]. }
  split; [exact He | split; [exact Hi |]].
  exact (proj1 exclusion_precedence (py "Scout_MPRAGE") He Hi).
Defined.

End Classifier.

(** ** Priority ranker *)

Section Ranker.

Variable label : str.

Let hit (e : str) : bool := contains (lower e) (lower label).

Lemma first_hit_some (table : list str) (k i : nat) :
  first_hit k table label = Some i ->
  exists j e,
    i = k + j /\ nth_error table j = Some e /\ hit e = true /\
    forall j' e', j' < j -> nth_error table j' = Some e' -> hit e' = false.
Proof.
  revert k. induction table as [|e table IH]; intros k; simpl.
  - discriminate.
  - destruct (contains (lower e) (lower label)) eqn:E.
    + intros [= <-]. exists 0, e. repeat split; auto with arith.
      intros j' e' Hlt. inversion Hlt.
    + intros H. destruct (IH _ H) as (j & e1 & -> & Hn & Hh & Hmin).
      exists (S j), e1. repeat split; auto with arith.
      intros [|j'] e' Hlt; simpl.
      * intros [= <-]. exact E.
      * apply Hmin. lia.
Qed.

Lemma first_hit_none (table : list str) (k : nat) :
  first_hit k table label = None <->
  forall e, In e table -> hit e = false.
Proof.
  revert k. induction table as [|e table IH]; intros k; simpl.
  - split; [intros _ e [] | reflexivity].
  - destruct (contains (lower e) (lower label)) eqn:E.
    + split; [discriminate |]. intros H.
      specialize (H e (or_introl eq_refl)). unfold hit in H. congruence.
    + rewrite IH. split.
      * intros H e' [<- | Hin]; [exact E | now apply H].
      * intros H e' Hin. apply H. now right.
Qed.

(** The ranker over any table: the result is the index of the first entry
    that occurs in the label (case ignored), the length of the table when
    there is none. *)
Lemma priority_in_first (table : list str) (i : nat) (e : str) :
  nth_error table i = Some e ->
  ci_substring e label ->
  (forall j e', j < i -> nth_error table j = Some e' ->
                ~ ci_substring e' label) ->
  priority_in table label = i.
Proof.
  intros Hn He Hmin. unfold priority_in.
  destruct (first_hit 0 table label) as [r|] eqn:E.
  - destruct (first_hit_some _ _ _ E) as (j & e1 & -> & Hn1 & Hh & Hm).
    simpl. destruct (Nat.lt_trichotomy j i) as [Hlt | [-> | Hgt]].
    + exfalso. apply (Hmin j e1 Hlt Hn1). now apply contains_iff.
    + reflexivity.
    + exfalso. specialize (Hm i e Hgt Hn).
      apply contains_false_iff in Hm. now apply Hm.
  - exfalso. rewrite first_hit_none in E.
    specialize (E e (nth_error_In _ _ Hn)).
    apply contains_false_iff in E. now apply E.
Qed.

Lemma priority_in_none (table : list str) :
  (forall e, In e table -> ~ ci_substring e label) <->
  priority_in table label = length table.
Proof.
  unfold priority_in.
  destruct (first_hit 0 table label) as [r|] eqn:E.
  - destruct (first_hit_some _ _ _ E) as (j & e1 & -> & Hn1 & Hh & _).
    simpl. split.
    + intros H. exfalso. apply (H e1 (nth_error_In _ _ Hn1)).
      now apply contains_iff.
    + intros Hj. exfalso.
      assert (j < length table) by (apply nth_error_Some; congruence). lia.
  - split; [reflexivity |]. intros _ e Hin.
    rewrite first_hit_none in E. apply contains_false_iff. now apply E.
Qed.

Lemma priority_in_hit (table : list str) :
  priority_in table label < length table ->
  exists e,
    nth_error table (priority_in table label) = Some e /\
    ci_substring e label /\
    forall j e', j < priority_in table label ->
                 nth_error table j = Some e' -> ~ ci_substring e' label.
Proof.
  unfold priority_in.
  destruct (first_hit 0 table label) as [r|] eqn:E; [| lia].
  destruct (first_hit_some _ _ _ E) as (j & e1 & -> & Hn1 & Hh & Hm).
  simpl. intros _. exists e1. split; [exact Hn1 | split].
  - now apply contains_iff.
  - intros j' e' Hlt Hn'. apply contains_false_iff. now apply (Hm j' e').
Qed.

Lemma priority_in_le (table : list str) :
  priority_in table label <= length table.
Proof.
  unfold priority_in.
  destruct (first_hit 0 table label) as [r|] eqn:E; [| lia].
  destruct (first_hit_some _ _ _ E) as (j & e1 & -> & Hn1 & _).
  assert (j < length table) by (apply nth_error_Some; congruence).
  simpl. lia.
Qed.

End Ranker.

(** C7. [get_sequence_priority] returns the 0-based index of the first entry
    of [SEQUENCE_PRIORITY] that is a substring of the label, case ignored,
    and the length of the table exactly when no entry is such a substring. *)
Theorem get_sequence_priority_first_match (label : str) :
  (forall i e,
      nth_error SEQUENCE_PRIORITY i = Some e ->
      ci_substring e label ->
      (forall j e', j < i -> nth_error SEQUENCE_PRIORITY j = Some e' ->
                    ~ ci_substring e' label) ->
      get_sequence_priority label = i)
  /\ ((forall e, In e SEQUENCE_PRIORITY -> ~ ci_substring e label) <->
      get_sequence_priority label = length SEQUENCE_PRIORITY)
  /\ (get_sequence_priority label < length SEQUENCE_PRIORITY ->
      exists e,
        nth_error SEQUENCE_PRIORITY (get_sequence_priority label) = Some e /\
        ci_substring e label /\
        forall j e', j < get_sequence_priority label ->
                     nth_error SEQUENCE_PRIORITY j = Some e' ->
                     ~ ci_substring e' label)
  /\ get_sequence_priority label <= length SEQUENCE_PRIORITY.
Proof.
  unfold get_sequence_priority. split; [| split; [| split]].
  - intros i e. apply priority_in_first.
  - apply priority_in_none.
  - apply priority_in_hit.
  - apply priority_in_le.
Qed.

Lemma get_sequence_priority_first_match_witness :
  get_sequence_priority (py "Sag_3D_FSPGR_BRAVO") = 7.
Proof.
  apply (proj1 (get_sequence_priority_first_match (py "Sag_3D_FSPGR_BRAVO"))
           7 (py "SAG_3D_FSPGR")).
  - reflexivity.
  - apply contains_iff. reflexivity.
  - intros j e' Hlt Hn. apply contains_false_iff.
    do 7 (destruct j as [|j]; [injection Hn as <-; reflexivity |]).
    lia.
Defined.

(** ** Session key *)

Section SessionKey.

Lemma date_re_ok (ts : str) : re_match false DATE_RE ts = date_ok ts.
Proof.
  unfold DATE_RE, date_ok.
  do 10 (destruct ts as [|? ts];
         [simpl; rewrite ?andb_false_r; reflexivity |]).
  simpl. rewrite andb_true_r, !andb_assoc. reflexivity.
Qed.

Lemma date_ok_iff (ts : str) :
  date_ok ts = true <-> exists y m d, date_prefix y m d ts.
Proof.
  split.
  - unfold date_ok.
    do 10 (destruct ts as [|? ts]; [discriminate |]).
    rewrite !andb_true_iff, !Ascii.eqb_eq.
    intros [[[[[[[[[H0 H1] H2] H3] ->] H5] H6] ->] H8] H9].
    exists [a; a0; a1; a2], [a4; a5], [a7; a8].
    unfold date_prefix, all_digits.
    repeat (split; [solve [reflexivity | repeat constructor; assumption] |]).
    now exists ts.
  - intros (y & m & d & Hy & Hm & Hd & Dy & Dm & Dd & rest & ->).
    do 4 (destruct y as [|? y]; [discriminate |]).
    destruct y; [| discriminate].
    do 2 (destruct m as [|? m]; [discriminate |]).
    destruct m; [| discriminate].
    do 2 (destruct d as [|? d]; [discriminate |]).
    destruct d; [| discriminate].
    unfold all_digits in *.
    repeat match goal with
           | H : Forall _ (_ :: _) |- _ => inversion H; subst; clear H
           end.
    simpl. repeat (rewrite andb_true_iff; split); auto.
Qed.

Lemma extract_with_prefix (y m d ts : str) :
  date_prefix y m d ts -> extract_session_date ts = y ++ m ++ d.
Proof.
  intros H. unfold extract_session_date.
  rewrite date_re_ok.
  replace (date_ok ts) with true
    by (symmetry; apply date_ok_iff; now exists y, m, d).
  destruct H as (Hy & Hm & Hd & _ & _ & _ & rest & ->).
  do 4 (destruct y as [|? y]; [discriminate |]).
  destruct y; [| discriminate].
  do 2 (destruct m as [|? m]; [discriminate |]).
  destruct m; [| discriminate].
  do 2 (destruct d as [|? d]; [discriminate |]).
  destruct d; [| discriminate].
  reflexivity.
Qed.

Lemma strip_is_filter (ts : str) :
  remove_char "." (remove_char "_" (remove_char "-" ts))
  = filter not_separator ts.
Proof.
  unfold remove_char, not_separator.
  induction ts as [|c ts IH]; simpl; [reflexivity |].
  destruct (Ascii.eqb c "-"); simpl; [exact IH |].
  destruct (Ascii.eqb c "_"); simpl; [exact IH |].
  destruct (Ascii.eqb c "."); simpl; [exact IH |].
  now rewrite IH.
Qed.

Lemma not_separator_false (c : ascii) :
  not_separator c = false <-> is_separator c.
Proof.
  unfold not_separator, is_separator.
  rewrite !andb_false_iff, !negb_false_iff, !Ascii.eqb_eq. tauto.
Qed.

Lemma filter_nil_iff {A : Type} (f : A -> bool) (l : list A) :
  filter f l = [] <-> Forall (fun x => f x = false) l.
Proof.
  induction l as [|x l IH]; simpl.
  - split; [constructor | reflexivity].
  - destruct (f x) eqn:E; split.
    + discriminate.
    + intros H. inversion H; congruence.
    + intros H. constructor; [exact E | now apply IH].
    + intros H. inversion H. now apply IH.
Qed.

Lemma digit_not_separator (c : ascii) :
  is_digit c = true -> ~ is_separator c.
Proof. intros H [-> | [-> | ->]]; discriminate H. Qed.

Lemma extract_without_prefix (ts : str) :
  (forall y m d, ~ date_prefix y m d ts) ->
  extract_session_date ts
  = firstn 8 (remove_char "." (remove_char "_" (remove_char "-" ts))).
Proof.
  intros H. unfold extract_session_date. rewrite date_re_ok.
  destruct (date_ok ts) eqn:E; [| reflexivity].
  apply date_ok_iff in E as (y & m & d & E). now destruct (H y m d).
Qed.

Lemma extract_empty_iff (ts : str) :
  extract_session_date ts = [] <-> Forall is_separator ts.
Proof.
  unfold extract_session_date. rewrite date_re_ok.
  destruct (date_ok ts) eqn:E.
  - unfold date_ok in E.
    do 10 (destruct ts as [|? ts]; [discriminate |]).
    split; [discriminate |]. intros H. inversion H; subst.
    rewrite !andb_true_iff in E.
    destruct E as [[[[[[[[[H0 _] _] _] _] _] _] _] _] _].
    now destruct (digit_not_separator _ H0).
  - rewrite strip_is_filter.
    assert (F : forall l : str, firstn 8 l = [] <-> l = [])
      by (intros [|? ?]; split; [reflexivity | reflexivity
                                 | discriminate | discriminate]).
    split; intros H.
    + apply F, filter_nil_iff in H. revert H.
      apply Forall_impl. intros c. apply not_separator_false.
    + apply F, filter_nil_iff. revert H.
      apply Forall_impl. intros c. apply not_separator_false.
Qed.

Lemma extract_length (ts : str) : length (extract_session_date ts) <= 8.
Proof.
  unfold extract_session_date. rewrite date_re_ok.
  destruct (date_ok ts) eqn:E.
  - unfold date_ok in E.
    do 10 (destruct ts as [|? ts]; [discriminate |]). simpl. lia.
  - apply firstn_le_length.
Qed.

(** C2, as the code has it.  A leading [YYYY-MM-DD] gives the eight digits
    [YYYYMMDD]; any other input gives its first eight characters after the
    separators [-], [_], [.] are removed; the key has at most eight
    characters, and it is empty exactly when the input consists of
    separators only (the empty string included). *)
Theorem extract_session_date_key (ts : str) :
  (forall y m d,
      date_prefix y m d ts ->
      extract_session_date ts = y ++ m ++ d /\
      length (extract_session_date ts) = 8 /\
      all_digits (extract_session_date ts))
  /\ ((forall y m d, ~ date_prefix y m d ts) ->
      extract_session_date ts
      = firstn 8 (remove_char "." (remove_char "_" (remove_char "-" ts))))
  /\ (extract_session_date ts = [] <-> Forall is_separator ts)
  /\ length (extract_session_date ts) <= 8
  /\ extract_session_date (py "2011-04-05_14_45_45.0") = py "20110405"
  /\ extract_session_date (py "abcxyz123") = py "abcxyz12".
Proof.
  split; [| split; [| split; [| split; [| split]]]].
  - intros y m d H. rewrite (extract_with_prefix _ _ _ _ H).
    destruct H as (Hy & Hm & Hd & Dy & Dm & Dd & _).
    split; [reflexivity | split].
    + rewrite !length_app. lia.
    + unfold all_digits in *. rewrite !Forall_app. auto.
  - apply extract_without_prefix.
  - apply extract_empty_iff.
  - apply extract_length.
  - reflexivity.
  - reflexivity.
Qed.

Lemma extract_session_date_key_witness :
  extract_session_date (py "2021-05-17_10_47_24.0") = py "20210517".
Proof.
  refine (proj1 (proj1 (extract_session_date_key (py "2021-05-17_10_47_24.0"))
                   (py "2021") (py "05") (py "17") _)).
  unfold date_prefix, all_digits.
  repeat (split; [solve [reflexivity | repeat constructor] |]).
  now exists (py "_10_47_24.0").
Defined.

(** C2, as stated, fails: a name made of separators has an empty key. *)
Lemma extract_session_date_empty_key :
  extract_session_date (py "_") = [] /\
  ~ (forall ts : str, extract_session_date ts <> []).
Proof.
  split; [reflexivity |]. intros H. now apply (H (py "_")).
Qed.

End SessionKey.

(** ** Identifier normalizer *)

Section Normalizer.

Lemma normalize_strips (r : str) :
  normalize_subject_id (py "sub-" ++ r) = r.
Proof.
  unfold normalize_subject_id. now rewrite startswith_app.
Qed.

Lemma normalize_keeps (x : str) :
  startswith (py "sub-") x = false -> normalize_subject_id x = x.
Proof. unfold normalize_subject_id. now intros ->. Qed.

Lemma shorter_tail (r : str) : py "sub-" ++ r <> r.
Proof.
  intros H. apply (f_equal (@length ascii)) in H.
  rewrite length_app in H. simpl in H. lia.
Qed.

Lemma double_prefix (r : str) :
  startswith (py "sub-sub-") (py "sub-" ++ r) = startswith (py "sub-") r.
Proof. reflexivity. Qed.

Lemma double_prefix_off (x : str) :
  startswith (py "sub-") x = false -> startswith (py "sub-sub-") x = false.
Proof.
  intros H. destruct (startswith (py "sub-sub-") x) eqn:E; [| reflexivity].
  apply startswith_iff in E as [r ->].
  change (py "sub-sub-" ++ r) with (py "sub-" ++ (py "sub-" ++ r)) in H.
  now rewrite startswith_app in H.
Qed.

(** C3, as the code has it: one prefix is stripped, once.  Normalizing is
    idempotent at [x] exactly when [x] does not start with two prefixes in a
    row, and an identifier with no prefix is returned unchanged. *)
Theorem normalize_subject_id_idempotent_iff (x : str) :
  (normalize_subject_id (normalize_subject_id x) = normalize_subject_id x
   <-> startswith (py "sub-sub-") x = false)
  /\ (startswith (py "sub-") x = false ->
      normalize_subject_id x = x /\
      normalize_subject_id (normalize_subject_id x) = normalize_subject_id x).
Proof.
  split.
  - destruct (startswith (py "sub-") x) eqn:E.
    + apply startswith_iff in E as [r ->].
      rewrite double_prefix, normalize_strips.
      destruct (startswith (py "sub-") r) eqn:E'.
      * apply startswith_iff in E' as [r' ->].
        rewrite normalize_strips. split; [| discriminate].
        intros H. symmetry in H. now destruct (shorter_tail r').
      * rewrite (normalize_keeps _ E'). split; reflexivity.
    + rewrite (double_prefix_off _ E), !(normalize_keeps _ E).
      split; reflexivity.
  - intros E. now rewrite !(normalize_keeps _ E).
Qed.

Lemma normalize_subject_id_idempotent_iff_witness :
  normalize_subject_id (py "OAS2_0001") = py "OAS2_0001" /\
  normalize_subject_id (normalize_subject_id (py "OAS2_0001"))
  = normalize_subject_id (py "OAS2_0001").
Proof.
  apply (proj2 (normalize_subject_id_idempotent_iff (py "OAS2_0001"))).
  reflexivity.
Defined.

(** C3, as stated, fails on an identifier that carries the prefix twice. *)
Lemma normalize_subject_id_not_idempotent :
  normalize_subject_id (normalize_subject_id (py "sub-sub-01")) = py "01" /\
  normalize_subject_id (py "sub-sub-01") = py "sub-01" /\
  normalize_subject_id (normalize_subject_id (py "sub-sub-01"))
  <> normalize_subject_id (py "sub-sub-01").
Proof.
  split; [reflexivity | split; [reflexivity | discriminate]].
Qed.

End Normalizer.

(** ** Sequence selector *)

Section Sorting.

Context {A : Type}.
Variable prio : A -> nat.

Lemma insert_In (x d : A) (l : list A) :
  In d (insert_by prio x l) <-> d = x \/ In d l.
Proof.
  induction l as [|y l IH]; simpl.
  - intuition.
  - destruct (prio y <? prio x); simpl; [rewrite IH |]; intuition.
Qed.

Lemma sort_In (d : A) (l : list A) : In d (sort_by prio l) <-> In d l.
Proof.
  induction l as [|x l IH]; simpl; [reflexivity |].
  rewrite insert_In, IH. intuition.
Qed.

Lemma sort_nil (l : list A) : sort_by prio l = [] -> l = [].
Proof.
  destruct l as [|x l]; [reflexivity |]. intros E. exfalso.
  assert (H : In x (sort_by prio (x :: l))) by (apply sort_In; now left).
  now rewrite E in H.
Qed.

Lemma insert_sorted (x : A) (l : list A) :
  StronglySorted (by_priority prio) l ->
  StronglySorted (by_priority prio) (insert_by prio x l).
Proof.
  induction 1 as [|y l Hs IH Hy]; simpl.
  - repeat constructor.
  - destruct (prio y <? prio x) eqn:E.
    + constructor; [exact IH |].
      apply Forall_forall. intros d Hd. apply insert_In in Hd as [-> | Hd].
      * apply Nat.ltb_lt in E. unfold by_priority. lia.
      * rewrite Forall_forall in Hy. now apply Hy.
    + apply Nat.ltb_ge in E. constructor.
      * now constructor.
      * constructor; [exact E |].
        rewrite Forall_forall in *. intros d Hd.
        specialize (Hy d Hd). unfold by_priority in *. lia.
Qed.

Lemma sort_sorted (l : list A) :
  StronglySorted (by_priority prio) (sort_by prio l).
Proof.
  induction l as [|x l IH]; simpl; [constructor | now apply insert_sorted].
Qed.

(** Stability: the elements of one rank keep their order. *)
Lemma insert_same_rank (p : nat) (x : A) (l : list A) :
  filter (fun s => prio s =? p) (insert_by prio x l)
  = filter (fun s => prio s =? p) (x :: l).
Proof.
  induction l as [|y l IH]; [reflexivity |].
  simpl insert_by.
  destruct (prio y <? prio x) eqn:E; [| reflexivity].
  apply Nat.ltb_lt in E. simpl in *. rewrite IH.
  destruct (prio y =? p) eqn:Ey, (prio x =? p) eqn:Ex; try reflexivity.
  apply Nat.eqb_eq in Ey, Ex. lia.
Qed.

Lemma sort_same_rank (p : nat) (l : list A) :
  filter (fun s => prio s =? p) (sort_by prio l)
  = filter (fun s => prio s =? p) l.
Proof.
  induction l as [|x l IH]; [reflexivity |].
  simpl sort_by. rewrite insert_same_rank. simpl. now rewrite IH.
Qed.

Lemma sort_head_min (l : list A) (first : A) (rest : list A) :
  sort_by prio l = first :: rest ->
  In first l /\ forall d, In d l -> prio first <= prio d.
Proof.
  intros E. split.
  - apply sort_In. rewrite E. now left.
  - intros d Hd. apply sort_In in Hd. rewrite E in Hd.
    pose proof (sort_sorted l) as S. rewrite E in S.
    inversion S as [|? ? _ Hall]; subst.
    destruct Hd as [<- | Hd]; [lia |].
    rewrite Forall_forall in Hall. now apply Hall.
Qed.

Lemma best_rank_is_min (l : list A) (first : A) (rest : list A) :
  sort_by prio l = first :: rest ->
  filter (fun s => prio s =? prio first) (sort_by prio l) = best_of prio l.
Proof.
  intros E. destruct (sort_head_min _ _ _ E) as [Hin Hmin].
  rewrite sort_same_rank. unfold best_of. apply filter_ext_in.
  intros c Hc. unfold attains_min.
  destruct (prio c =? prio first) eqn:Ec.
  - apply Nat.eqb_eq in Ec. symmetry. apply forallb_forall.
    intros d Hd. apply Nat.leb_le. rewrite Ec. now apply Hmin.
  - symmetry. apply not_true_is_false. intros H.
    rewrite forallb_forall in H. specialize (H first Hin).
    apply Nat.leb_le in H. specialize (Hmin c Hc).
    apply Nat.eqb_neq in Ec. lia.
Qed.

Lemma best_of_incl (l : list A) (x : A) : In x (best_of prio l) -> In x l.
Proof. unfold best_of. intros H. now apply filter_In in H. Qed.

End Sorting.

Lemma forallb_same {A : Type} (f g : A -> bool) (l : list A) :
  (forall x, f x = g x) -> forallb f l = forallb g l.
Proof.
  intros H. induction l as [|x l IH]; simpl; [reflexivity |].
  now rewrite H, IH.
Qed.

Lemma best_of_ext {A : Type} (prio prio' : A -> nat) (l : list A) :
  (forall x, prio x = prio' x) -> best_of prio l = best_of prio' l.
Proof.
  intros H. unfold best_of, attains_min. apply filter_ext. intros c.
  rewrite H. apply forallb_same. intros d. now rewrite H.
Qed.

Section Grouping.

Context {A : Type}.
Variable sess : A -> str.

Lemma group_of_add (k : str) (c : A) (sessions : list (str * list A)) :
  group_of k (add_to_session sess c sessions)
  = group_of k sessions ++ (if in_session sess k c then [c] else []).
Proof.
  unfold in_session.
  induction sessions as [|[k' g] rest IH]; simpl.
  - destruct (str_eqb (sess c) k); reflexivity.
  - destruct (str_eqb k' (sess c)) eqn:E; simpl.
    + apply str_eqb_eq in E. subst k'.
      destruct (str_eqb (sess c) k); [reflexivity |].
      now rewrite app_nil_r.
    + destruct (str_eqb k' k) eqn:E'; [| exact IH].
      apply str_eqb_eq in E'. subst k'. rewrite str_eqb_sym, E.
      now rewrite app_nil_r.
Qed.

Lemma keys_add (c : A) (sessions : list (str * list A)) :
  forall k, In k (map fst (add_to_session sess c sessions)) ->
            k = sess c \/ In k (map fst sessions).
Proof.
  induction sessions as [|[k' g] rest IH]; simpl; intros k.
  - intuition.
  - destruct (str_eqb k' (sess c)); simpl; [intuition |].
    intros [H | H]; [intuition |]. destruct (IH _ H); intuition.
Qed.

Lemma keyed_add (c : A) (sessions : list (str * list A)) :
  keyed sess sessions -> keyed sess (add_to_session sess c sessions).
Proof.
  unfold keyed.
  induction sessions as [|[k' g] rest IH]; simpl; intros [Hn Hf].
  - split; repeat constructor. intros [].
  - inversion Hn as [|? ? Hk Hn']; inversion Hf as [|? ? Hg Hf']; subst.
    destruct (str_eqb k' (sess c)) eqn:E; simpl.
    + apply str_eqb_eq in E. split; [exact Hn |].
      constructor; [| exact Hf']. simpl in *.
      apply Forall_app. split; [exact Hg | now repeat constructor].
    + destruct (IH (conj Hn' Hf')) as [Hn2 Hf2].
      split; constructor; auto.
      intros Hin. apply keys_add in Hin as [-> | Hin]; [| contradiction].
      now rewrite str_eqb_refl in E.
Qed.

Lemma fold_add_keyed (sequences : list A) (sessions : list (str * list A)) :
  keyed sess sessions ->
  keyed sess (fold_left (fun acc seq => add_to_session sess seq acc)
           sequences sessions).
Proof.
  revert sessions. induction sequences as [|c l IH]; intros s H; simpl.
  - exact H.
  - apply IH. now apply keyed_add.
Qed.

Lemma fold_add_group (k : str) (sequences : list A)
    (sessions : list (str * list A)) :
  group_of k
    (fold_left (fun acc seq => add_to_session sess seq acc)
       sequences sessions)
  = group_of k sessions ++ session_group sess k sequences.
Proof.
  revert sessions. induction sequences as [|c l IH]; intros s; simpl.
  - now rewrite app_nil_r.
  - rewrite IH, group_of_add, <- app_assoc.
    now destruct (in_session sess k c).
Qed.

Lemma group_by_session_group (k : str) (sequences : list A) :
  group_of k (group_by_session sess sequences)
  = session_group sess k sequences.
Proof. unfold group_by_session. now rewrite fold_add_group. Qed.

Lemma group_of_absent (k : str) (sessions : list (str * list A)) :
  ~ In k (map fst sessions) -> group_of k sessions = [].
Proof.
  induction sessions as [|[k' g] rest IH]; simpl; intros H; [reflexivity |].
  destruct (str_eqb k' k) eqn:E.
  - apply str_eqb_eq in E. intuition.
  - apply IH. intuition.
Qed.

Lemma group_of_In (k : str) (g : list A) (sessions : list (str * list A)) :
  NoDup (map fst sessions) -> In (k, g) sessions -> group_of k sessions = g.
Proof.
  induction sessions as [|[k' g'] rest IH]; simpl; intros Hn Hin.
  - destruct Hin.
  - inversion Hn as [|? ? Hk Hn']; subst.
    destruct Hin as [[= -> ->] | Hin].
    + now rewrite str_eqb_refl.
    + destruct (str_eqb k' k) eqn:E; [| now apply IH].
      apply str_eqb_eq in E. subst k'. exfalso. apply Hk.
      apply in_map_iff. now exists (k, g).
Qed.

Lemma group_by_session_ok (sequences : list A) :
  NoDup sequences -> sessions_ok sess (group_by_session sess sequences).
Proof.
  intros Hn.
  destruct (fold_add_keyed sequences [] (conj (NoDup_nil _) (Forall_nil _)))
    as [Hk Hs].
  fold (group_by_session sess sequences) in Hk, Hs.
  split; [exact Hk | split; [exact Hs |]].
  apply Forall_forall. intros [k g] Hin. simpl.
  rewrite <- (group_of_In k g _ Hk Hin), group_by_session_group.
  now apply NoDup_filter.
Qed.

End Grouping.

Section Writes.

Lemma apply_writes_cons (w : ref * option nat)
    (writes : list (ref * option nat)) (st : store) :
  apply_writes (w :: writes) st
  = apply_writes writes (set_run st (fst w) (snd w)).
Proof. reflexivity. Qed.

Lemma apply_writes_info (writes : list (ref * option nat)) (st : store)
    (r : ref) :
  info (apply_writes writes st r) = info (st r).
Proof.
  revert st. induction writes as [|w l IH]; intros st; [reflexivity |].
  rewrite apply_writes_cons, IH. unfold set_run.
  now destruct (r =? fst w).
Qed.

Lemma apply_writes_other (writes : list (ref * option nat)) (st : store)
    (r : ref) :
  ~ In r (map fst writes) -> apply_writes writes st r = st r.
Proof.
  revert st. induction writes as [|w l IH]; intros st H; [reflexivity |].
  simpl in H. rewrite apply_writes_cons, IH by tauto.
  unfold set_run. destruct (r =? fst w) eqn:E; [| reflexivity].
  apply Nat.eqb_eq in E. exfalso. apply H. left. now symmetry.
Qed.

(** With distinct objects, every object reads the value written to it. *)
Lemma apply_writes_run (writes : list (ref * option nat)) (st : store)
    (r : ref) (v : option nat) :
  NoDup (map fst writes) -> In (r, v) writes ->
  run (apply_writes writes st r) = Some v.
Proof.
  revert st. induction writes as [|w l IH]; intros st Hn Hin.
  - destruct Hin.
  - simpl in Hn. inversion Hn as [|? ? Hw Hn']; subst.
    rewrite apply_writes_cons. destruct Hin as [-> | Hin].
    + simpl in *. rewrite apply_writes_other by exact Hw.
      unfold set_run. now rewrite Nat.eqb_refl.
    + now apply IH.
Qed.

Lemma apply_writes_app (w1 w2 : list (ref * option nat)) (st : store) :
  apply_writes (w1 ++ w2) st = apply_writes w2 (apply_writes w1 st).
Proof. unfold apply_writes. apply fold_left_app. Qed.

Lemma run_values_length (n : nat) : length (run_values n) = n.
Proof.
  unfold run_values. destruct (1 <? n).
  - now rewrite length_map, length_seq.
  - apply repeat_length.
Qed.

Lemma combine_fst {B C : Type} (l : list B) (l' : list C) :
  length l = length l' -> map fst (List.combine l l') = l.
Proof.
  revert l'. induction l as [|x l IH]; intros [|y l'] H; simpl in *;
    try discriminate; [reflexivity |]. now rewrite IH by lia.
Qed.

Lemma combine_snd {B C : Type} (l : list B) (l' : list C) :
  length l = length l' -> map snd (List.combine l l') = l'.
Proof.
  revert l'. induction l as [|x l IH]; intros [|y l'] H; simpl in *;
    try discriminate; [reflexivity |]. now rewrite IH by lia.
Qed.

Lemma session_writes_fst {A : Type} (prio : A -> nat) (g : list A) :
  map fst (session_writes prio g) = best_of prio g.
Proof.
  unfold session_writes. apply combine_fst. now rewrite run_values_length.
Qed.

Lemma session_writes_snd {A : Type} (prio : A -> nat) (g : list A) :
  map snd (session_writes prio g) = run_values (length (best_of prio g)).
Proof.
  unfold session_writes. apply combine_snd. now rewrite run_values_length.
Qed.

Lemma session_writes_ext {A : Type} (prio prio' : A -> nat) (g : list A) :
  (forall x, prio x = prio' x) ->
  session_writes prio g = session_writes prio' g.
Proof.
  intros H. unfold session_writes. now rewrite (best_of_ext prio prio' g H).
Qed.

(** The loop of run assignments performs the writes of its list, in order,
    and appends the list to the selection. *)
Lemma assign_runs_eq (many : bool) (run_idx : nat) (best_seqs : list ref)
    (st : store) (selected : list ref) :
  assign_runs many run_idx best_seqs st selected
  = (apply_writes
       (List.combine best_seqs
          (if many then map Some (seq run_idx (length best_seqs))
           else repeat None (length best_seqs)))
       st,
     selected ++ best_seqs).
Proof.
  revert run_idx st selected.
  induction best_seqs as [|x l IH]; intros i st sel; simpl.
  - now rewrite app_nil_r; destruct many.
  - rewrite IH, <- app_assoc. simpl. now destruct many.
Qed.

Lemma select_in_session_eq (g : list ref) (st : store)
    (selected : list ref) :
  select_in_session g st selected
  = (apply_writes (session_writes (priority_at st) g) st,
     selected ++ best_of (priority_at st) g).
Proof.
  unfold select_in_session.
  change (fun x : ref => priority (info (st x))) with (priority_at st).
  destruct (sort_by (priority_at st) g) as [|first rest] eqn:E.
  - apply sort_nil in E. subst g. simpl. now rewrite app_nil_r.
  - change (fun s : ref =>
              priority (info (st s)) =? priority (info (st first)))
      with (fun s : ref => priority_at st s =? priority_at st first).
    rewrite <- E, (best_rank_is_min _ g first rest E), assign_runs_eq.
    reflexivity.
Qed.

Lemma fold_sessions (sessions : list (str * list ref)) (st : store)
    (selected : list ref) :
  fold_left (fun acc kv => select_in_session (snd kv) (fst acc) (snd acc))
    sessions (st, selected)
  = (apply_writes
       (flat_map (fun kv => session_writes (priority_at st) (snd kv))
          sessions) st,
     selected
       ++ map fst
            (flat_map (fun kv => session_writes (priority_at st) (snd kv))
               sessions)).
Proof.
  revert st selected.
  induction sessions as [|[k g] rest IH]; intros st sel; simpl.
  - now rewrite app_nil_r.
  - rewrite select_in_session_eq. simpl. rewrite IH.
    assert (E : flat_map
                  (fun kv =>
                     session_writes
                       (priority_at
                          (apply_writes
                             (session_writes (priority_at st) g) st))
                       (snd kv)) rest
                = flat_map
                    (fun kv => session_writes (priority_at st) (snd kv))
                    rest).
    { apply flat_map_ext. intros kv. apply session_writes_ext.
      intros x. unfold priority_at. now rewrite apply_writes_info. }
    rewrite E, apply_writes_app, map_app, session_writes_fst, app_assoc.
    reflexivity.
Qed.

(** [select_best_sequences] performs the writes of its sessions in order and
    returns the objects written, in that order. *)
Lemma select_best_sequences_eq (sequences : list ref) (st : store) :
  select_best_sequences sequences st
  = (apply_writes (all_writes st sequences) st,
     map fst (all_writes st sequences)).
Proof.
  unfold select_best_sequences, all_writes.
  destruct sequences as [|x l]; [reflexivity |].
  fold (session_at st). now rewrite fold_sessions.
Qed.

End Writes.

Section SessionView.

Context {A : Type}.
Variable sess : A -> str.
Variable prio : A -> nat.

Lemma session_writes_same (k : str) (g : list A) :
  Forall (fun c => sess c = k) g ->
  forall k',
    filter (fun w => in_session sess k' (fst w)) (session_writes prio g)
    = if str_eqb k k' then session_writes prio g else [].
Proof.
  intros Hg k'.
  assert (Hall : Forall (fun w => sess (fst w) = k) (session_writes prio g)).
  { apply Forall_forall. intros [x v] Hw. simpl.
    unfold session_writes in Hw. apply in_combine_l in Hw.
    apply best_of_incl in Hw. rewrite Forall_forall in Hg. now apply Hg. }
  unfold in_session.
  induction Hall as [|w l Hw _ IH]; simpl.
  - now destruct (str_eqb k k').
  - rewrite Hw, IH. now destruct (str_eqb k k').
Qed.

Lemma writes_in_session (k : str) (sessions : list (str * list A)) :
  sessions_ok sess sessions ->
  filter (fun w => in_session sess k (fst w))
    (flat_map (fun kv => session_writes prio (snd kv)) sessions)
  = session_writes prio (group_of k sessions).
Proof.
  unfold sessions_ok.
  induction sessions as [|[k' g] rest IH]; simpl; intros (Hn & Hf & Hd).
  - reflexivity.
  - inversion Hn as [|? ? Hk Hn']; inversion Hf as [|? ? Hg Hf'];
      inversion Hd as [|? ? _ Hd']; subst.
    rewrite filter_app, (session_writes_same k' g Hg k),
      (IH (conj Hn' (conj Hf' Hd'))).
    destruct (str_eqb k' k) eqn:E.
    + apply str_eqb_eq in E. subst k'.
      rewrite (group_of_absent _ _ Hk). apply app_nil_r.
    + reflexivity.
Qed.

Lemma writes_NoDup (sessions : list (str * list A)) :
  sessions_ok sess sessions ->
  NoDup (map fst (flat_map (fun kv => session_writes prio (snd kv))
                    sessions)).
Proof.
  unfold sessions_ok.
  induction sessions as [|[k g] rest IH]; simpl; intros (Hn & Hf & Hd).
  - constructor.
  - inversion Hn as [|? ? Hk Hn']; inversion Hf as [|? ? Hg Hf'];
      inversion Hd as [|? ? Hdg Hd']; subst. simpl in *.
    rewrite map_app, session_writes_fst. apply NoDup_app.
    + unfold best_of. now apply NoDup_filter.
    + apply IH. auto.
    + intros x Hx Hin. apply best_of_incl in Hx.
      apply in_map_iff in Hin as ([y v] & <- & Hin). simpl in Hx.
      apply in_flat_map in Hin as ([k' g'] & Hkv & Hw). simpl in Hw.
      unfold session_writes in Hw. apply in_combine_l, best_of_incl in Hw.
      rewrite Forall_forall in Hg, Hf'.
      specialize (Hg y Hx). specialize (Hf' (k', g') Hkv). simpl in Hf'.
      rewrite Forall_forall in Hf'. specialize (Hf' y Hw).
      apply Hk. apply in_map_iff. exists (k', g'). split; [| exact Hkv].
      simpl. congruence.
Qed.

End SessionView.

(** Discovery hands over distinct objects, holding what was found. *)
Lemma discovered_distinct (found : list Candidate) :
  NoDup (fst (discovered found)) /\
  map (fun r => info (snd (discovered found) r)) (fst (discovered found))
  = found.
Proof.
  split; [apply seq_NoDup |]. simpl.
  induction found as [|c l IH] using rev_ind; [reflexivity |].
  rewrite length_app, Nat.add_comm. simpl length.
  rewrite seq_S, map_app. simpl. f_equal.
  - rewrite <- IH at 2. apply map_ext_in. intros r Hr.
    apply in_seq in Hr. now rewrite app_nth1 by lia.
  - now rewrite app_nth2, Nat.sub_diag by lia.
Qed.

(** C1. Let the list hold distinct objects, as the list discovery builds
    does.  In every session [k], the objects selected are exactly the
    candidates of [k] that attain the minimum rank of the session, in
    discovery order, their discovery keys untouched; when there is one such
    candidate its run index is null; when there are [N > 1] their run
    indices are [1..N] in that order, none of them null. *)
Theorem select_best_sequences_runs (sequences : list ref) (st : store)
    (k : str) :
  NoDup sequences ->
  let best :=
    best_of (priority_at st) (session_group (session_at st) k sequences) in
  let st' := fst (select_best_sequences sequences st) in
  let chosen :=
    session_group (session_at st) k
      (snd (select_best_sequences sequences st)) in
  chosen = best
  /\ (forall r, info (st' r) = info (st r))
  /\ (length best = 1 -> map (fun r => run (st' r)) chosen = [Some None])
  /\ (1 < length best ->
      map (fun r => run (st' r)) chosen
      = map (fun i => Some (Some i)) (seq 1 (length best)) /\
      ~ In (Some None) (map (fun r => run (st' r)) chosen)).
Proof.
  intros Hn best st' chosen. subst best st' chosen.
  rewrite select_best_sequences_eq. simpl.
  pose proof (group_by_session_ok (session_at st) sequences Hn) as Hok.
  set (W := all_writes st sequences).
  set (g := session_group (session_at st) k sequences).
  assert (HW : filter (fun w => in_session (session_at st) k (fst w)) W
               = session_writes (priority_at st) g).
  { subst W g. unfold all_writes.
    rewrite (writes_in_session _ _ _ _ Hok). f_equal.
    apply group_by_session_group. }
  assert (Hc : session_group (session_at st) k (map fst W)
               = map fst (session_writes (priority_at st) g)).
  { unfold session_group. rewrite filter_map_swap. now rewrite HW. }
  assert (Hr : map (fun r => run (apply_writes W st r))
                 (session_group (session_at st) k (map fst W))
               = map Some (run_values (length (best_of (priority_at st) g)))).
  { rewrite Hc, map_map, <- session_writes_snd, map_map.
    apply map_ext_in. intros [r v] Hin. simpl.
    apply apply_writes_run.
    - subst W. unfold all_writes.
      exact (writes_NoDup (session_at st) _ _ Hok).
    - rewrite <- HW in Hin. now apply filter_In in Hin. }
  split; [| split; [| split]].
  - rewrite Hc. apply session_writes_fst.
  - intros r. apply apply_writes_info.
  - intros H1. rewrite Hr, H1. reflexivity.
  - intros H1. rewrite Hr. unfold run_values.
    apply Nat.ltb_lt in H1. rewrite H1, map_map. split; [reflexivity |].
    intros Hin. apply in_map_iff in Hin as (i & Hi & _). discriminate.
Qed.

Lemma select_best_sequences_runs_witness :
  1 < length (best_of (priority_at (snd three_series))
                (session_group (session_at (snd three_series))
                   (py "20110405") (fst three_series)))
  /\ map (fun r => run (fst (select_best_sequences (fst three_series)
                               (snd three_series)) r))
       (session_group (session_at (snd three_series)) (py "20110405")
          (snd (select_best_sequences (fst three_series)
                  (snd three_series))))
     = [Some (Some 1); Some (Some 2)].
Proof.
  assert (H : 1 < length (best_of (priority_at (snd three_series))
                            (session_group (session_at (snd three_series))
                               (py "20110405") (fst three_series))))
    by (vm_compute; lia).
  split; [exact H |].
  exact (proj1 (proj2 (proj2 (proj2
           (select_best_sequences_runs (fst three_series)
              (snd three_series) (py "20110405") (seq_NoDup _ _)))) H)).
Defined.

(** When one object is listed twice, the second write replaces the first:
    both entries of the selection read run [2]. *)
Lemma aliased_entries_share_run (st : store) :
  let out := select_best_sequences [0; 0] st in
  snd out = [0; 0] /\
  map (fun r => run (fst out r)) (snd out) = [Some (Some 2); Some (Some 2)].
Proof.
  rewrite select_best_sequences_eq. unfold all_writes, group_by_session.
  simpl. rewrite str_eqb_refl. simpl.
  unfold session_writes, best_of, attains_min. simpl.
  rewrite !Nat.leb_refl. simpl. split; reflexivity.
Qed.

(** ** Candidate discovery *)

Section Discovery.

Variables subject seq_name timestamp_name : str.
Variable path : list str.

Lemma endswith_iff (p s : str) :
  endswith p s = true <-> exists stem, s = stem ++ p.
Proof.
  unfold endswith. rewrite startswith_iff. split.
  - intros [r Hr]. exists (rev r).
    rewrite <- (rev_involutive s), Hr, rev_app_distr.
    now rewrite rev_involutive.
  - intros [stem ->]. exists (rev stem). apply rev_app_distr.
Qed.

Lemma dcm_named_iff (e : str * node) :
  dcm_named e = true <-> exists stem, fst e = stem ++ py ".dcm".
Proof. apply endswith_iff. Qed.

(** A timestamp directory with one entry, a directory: that entry is the
    container. *)
Lemma scan_single_child (child : str) (files : list (str * node)) :
  scan_timestamp subject seq_name path timestamp_name [(child, Dir files)]
  = match filter dcm_named files with
    | [] => None
    | _ :: _ =>
        Some (mkCandidate subject seq_name
                (extract_session_date timestamp_name) timestamp_name
                (path ++ [child]) (length (filter dcm_named files))
                (get_sequence_priority seq_name))
    end.
Proof. reflexivity. Qed.

(** A timestamp directory with one entry, a regular file. *)
Lemma scan_single_file (name : str) :
  scan_timestamp subject seq_name path timestamp_name [(name, File)] = None.
Proof. reflexivity. Qed.

(** A timestamp directory with two entries or more is its own container. *)
Lemma scan_flat (dicom_dirs : list (str * node)) :
  1 < length dicom_dirs ->
  scan_timestamp subject seq_name path timestamp_name dicom_dirs
  = match filter dcm_named dicom_dirs with
    | [] => None
    | _ :: _ =>
        Some (mkCandidate subject seq_name
                (extract_session_date timestamp_name) timestamp_name
                path (length (filter dcm_named dicom_dirs))
                (get_sequence_priority seq_name))
    end.
Proof.
  destruct dicom_dirs as [|[n1 d1] [|[n2 d2] rest]]; simpl; try lia.
  reflexivity.
Qed.

Lemma filter_none {A : Type} (f : A -> bool) (l : list A) :
  (forall x, In x l -> f x = false) -> filter f l = [].
Proof.
  intros H. apply filter_nil_iff, Forall_forall, H.
Qed.

Lemma filter_length_pos {A : Type} (f : A -> bool) (l : list A) :
  0 < length (filter f l) <-> exists x, In x l /\ f x = true.
Proof.
  split.
  - destruct (filter f l) as [|x r] eqn:E; simpl; [lia |].
    intros _. exists x. apply filter_In. rewrite E. now left.
  - intros (x & Hin & Hf).
    assert (H : In x (filter f l)) by (now apply filter_In).
    destruct (filter f l); [destruct H | simpl; lia].
Qed.

End Discovery.

Lemma find_single_tree (subject seq_name timestamp_name : str)
    (dicom_dirs : list (str * node)) :
  is_t1_sequence seq_name = true ->
  find_t1_sequences
    (single_tree subject seq_name timestamp_name dicom_dirs) subject
  = Some match scan_timestamp subject seq_name
                 [subject; seq_name; timestamp_name] timestamp_name
                 dicom_dirs with
         | Some c => [c]
         | None => []
         end.
Proof.
  intros Ht. unfold find_t1_sequences, single_tree. simpl.
  rewrite str_eqb_refl. simpl. rewrite Ht. simpl.
  now rewrite !app_nil_r.
Qed.

Lemma some_dcm_entry (files : list (str * node)) :
  (exists e stem, In e files /\ fst e = stem ++ py ".dcm") ->
  0 < length (filter dcm_named files).
Proof.
  intros (e & stem & Hin & Hn). apply filter_length_pos.
  exists e. split; [exact Hin |]. apply dcm_named_iff. now exists stem.
Qed.

Lemma no_dcm_entry (files : list (str * node)) :
  (forall e stem, In e files -> fst e <> stem ++ py ".dcm") ->
  filter dcm_named files = [].
Proof.
  intros H. apply filter_none. intros e Hin.
  destruct (dcm_named e) eqn:E; [| reflexivity].
  apply dcm_named_iff in E as [stem E]. now destruct (H e stem Hin).
Qed.

(** C9, as the code has it: an entry of the file container counts as an
    image file when its name ends in [.dcm].  A container with at least one
    such entry yields a candidate whose file count is their number; a
    container with none yields no candidate, whatever else it holds.  The
    container is the single child directory of the timestamp directory, or
    the timestamp directory itself when it has several entries. *)
Theorem discovery_counts_dcm_entries
    (subject seq_name timestamp_name : str) (path : list str)
    (child : str) (files : list (str * node)) :
  ((exists e stem, In e files /\ fst e = stem ++ py ".dcm") ->
   exists c,
     scan_timestamp subject seq_name path timestamp_name [(child, Dir files)]
     = Some c /\
     dicom_path c = path ++ [child] /\
     num_files c = length (filter dcm_named files) /\
     0 < num_files c)
  /\ ((forall e stem, In e files -> fst e <> stem ++ py ".dcm") ->
      scan_timestamp subject seq_name path timestamp_name
        [(child, Dir files)] = None)
  /\ (1 < length files ->
      (exists e stem, In e files /\ fst e = stem ++ py ".dcm") ->
      exists c,
        scan_timestamp subject seq_name path timestamp_name files = Some c /\
        dicom_path c = path /\
        num_files c = length (filter dcm_named files) /\
        0 < num_files c)
  /\ (1 < length files ->
      (forall e stem, In e files -> fst e <> stem ++ py ".dcm") ->
      scan_timestamp subject seq_name path timestamp_name files = None).
Proof.
  rewrite scan_single_child. split; [| split; [| split]].
  - intros H. apply some_dcm_entry in H.
    destruct (filter dcm_named files) as [|x r] eqn:E; [simpl in H; lia |].
    eexists. split; [reflexivity |]. simpl. repeat split. lia.
  - intros H. now rewrite (no_dcm_entry _ H).
  - intros Hlen H. apply some_dcm_entry in H.
    rewrite scan_flat by exact Hlen.
    destruct (filter dcm_named files) as [|x r] eqn:E; [simpl in H; lia |].
    eexists. split; [reflexivity |]. simpl. repeat split. lia.
  - intros Hlen H. rewrite scan_flat by exact Hlen.
    now rewrite (no_dcm_entry _ H).
Qed.

Lemma discovery_counts_dcm_entries_witness :
  exists c,
    scan_timestamp (py "3000") (py "MPRAGE")
      [py "3000"; py "MPRAGE"; py "2011-04-05_14_45_45.0"]
      (py "2011-04-05_14_45_45.0")
      [(py "I1", Dir [(py "notes.txt", File); (py "a.dcm", File)])]
    = Some c /\
    dicom_path c
    = [py "3000"; py "MPRAGE"; py "2011-04-05_14_45_45.0"] ++ [py "I1"] /\
    num_files c
    = length (filter dcm_named [(py "notes.txt", File); (py "a.dcm", File)])
    /\ 0 < num_files c.
Proof.
  apply (proj1 (discovery_counts_dcm_entries _ _ _ _ _ _)).
  exists (py "a.dcm", File), (py "a"). split; [right; now left | reflexivity].
Defined.

(** C9, as stated, fails: a container whose only file has no [.dcm]
    extension is discarded. *)
Lemma discovery_ignores_other_names :
  find_t1_sequences
    (single_tree (py "3000") (py "MPRAGE") (py "2011-04-05_14_45_45.0")
       [(py "I1", Dir [(py "IMG0001", File)])])
    (py "3000")
  = Some [].
Proof. reflexivity. Qed.

(** C10, amended. A timestamp directory with more than one entry is its
    own container: the candidate and its file count come from the entries
    directly in it whose name matches [*.dcm], files and directories alike,
    never from what its subdirectories hold; when no direct entry is so
    named there is no candidate, whatever the subdirectories hold.  A
    timestamp directory whose single entry is a regular file yields no
    candidate. *)
Theorem flat_or_file_timestamp
    (subject seq_name timestamp_name : str) (path : list str) :
  (forall dicom_dirs,
      1 < length dicom_dirs ->
      scan_timestamp subject seq_name path timestamp_name dicom_dirs
      = match filter dcm_named dicom_dirs with
        | [] => None
        | _ :: _ =>
            Some (mkCandidate subject seq_name
                    (extract_session_date timestamp_name) timestamp_name
                    path (length (filter dcm_named dicom_dirs))
                    (get_sequence_priority seq_name))
        end)
  /\ (forall dicom_dirs,
         1 < length dicom_dirs ->
         (forall e, In e dicom_dirs -> dcm_named e = false) ->
         scan_timestamp subject seq_name path timestamp_name dicom_dirs
         = None /\
         (is_t1_sequence seq_name = true ->
          find_t1_sequences
            (single_tree subject seq_name timestamp_name dicom_dirs) subject
          = Some []))
  /\ (forall name,
         scan_timestamp subject seq_name path timestamp_name [(name, File)]
         = None /\
         (is_t1_sequence seq_name = true ->
          find_t1_sequences
            (single_tree subject seq_name timestamp_name [(name, File)])
            subject
          = Some [])).
Proof.
  split; [| split].
  - intros dicom_dirs. apply scan_flat.
  - intros dicom_dirs Hlen Hno.
    assert (H : forall p,
               scan_timestamp subject seq_name p timestamp_name dicom_dirs
               = None).
    { intros p. rewrite scan_flat by exact Hlen.
      now rewrite (filter_none _ _ Hno). }
    split; [apply H |]. intros Ht.
    now rewrite (find_single_tree _ _ _ _ Ht), H.
  - intros name. split; [reflexivity |]. intros Ht.
    now rewrite (find_single_tree _ _ _ _ Ht).
Qed.

Lemma flat_or_file_timestamp_witness :
  find_t1_sequences
    (single_tree (py "3000") (py "MPRAGE") (py "2011-04-05_14_45_45.0")
       [(py "I1", Dir [(py "a.dcm", File)]);
        (py "I2", Dir [(py "b.dcm", File)])])
    (py "3000")
  = Some [].
Proof.
  refine (proj2 (proj1 (proj2 (flat_or_file_timestamp (py "3000")
                                 (py "MPRAGE") (py "2011-04-05_14_45_45.0")
                                 []))
                   _ _ _) _).
  - simpl. lia.
  - intros e [<- | [<- | []]]; reflexivity.
  - reflexivity.
Defined.

(** C10, as stated, fails: [glob] returns directories too, so two
    subdirectories named [a.dcm] and [b.dcm] that hold the image files are
    themselves counted, and the session yields a candidate with two
    files. *)
Lemma subdirectories_named_dcm_counted :
  find_t1_sequences
    (single_tree (py "3000") (py "MPRAGE") (py "2011-04-05_14_45_45.0")
       [(py "a.dcm", Dir [(py "IMG0001", File)]);
        (py "b.dcm", Dir [(py "IMG0002", File)])])
    (py "3000")
  = Some [mkCandidate (py "3000") (py "MPRAGE") (py "20110405")
            (py "2011-04-05_14_45_45.0")
            [py "3000"; py "MPRAGE"; py "2011-04-05_14_45_45.0"] 2 3].
Proof. reflexivity. Qed.

(** ** QC gate *)

Section QCGate.

Variable cols : list str.

Lemma keep_at_least_filter (qc_col : str) (threshold : Q)
    (rs kept : list row) :
  keep_at_least cols qc_col threshold rs = Some kept ->
  kept = filter (at_least cols qc_col threshold) rs.
Proof.
  revert kept. induction rs as [|r rs IH]; simpl; intros kept.
  - now intros [= <-].
  - unfold at_least.
    destruct (get cols r qc_col) as [|q|s];
      destruct (keep_at_least cols qc_col threshold rs) as [k|];
      try discriminate; intros [= <-]; rewrite (IH k eq_refl);
      reflexivity.
Qed.

Lemma keep_at_least_numeric (qc_col : str) (threshold : Q) (rs : list row) :
  (forall r s, In r rs -> get cols r qc_col <> Text s) ->
  keep_at_least cols qc_col threshold rs
  = Some (filter (at_least cols qc_col threshold) rs).
Proof.
  induction rs as [|r rs IH]; simpl; intros H; [reflexivity |].
  rewrite IH by (intros r' s Hin; apply H; now right).
  unfold at_least.
  destruct (get cols r qc_col) as [|q|s] eqn:E; try reflexivity.
  now destruct (H r s (or_introl eq_refl)).
Qed.

Lemma filter_filter {A : Type} (f g : A -> bool) (l : list A) :
  filter g (filter f l) = filter (fun x => f x && g x) l.
Proof.
  induction l as [|x l IH]; simpl; [reflexivity |].
  destruct (f x); simpl; [destruct (g x) |]; now rewrite IH.
Qed.

Lemma apply_qc_filter (thresholds : list (str * Q)) (rs kept : list row) :
  apply_qc thresholds cols rs = Some kept ->
  kept = filter (passes thresholds cols) rs.
Proof.
  revert rs kept.
  induction thresholds as [|[qc_col threshold] rest IH]; simpl;
    intros rs kept.
  - intros [= <-]. induction rs as [|r rs IHr]; simpl; congruence.
  - unfold passes. simpl. fold (passes rest cols).
    destruct (has_column qc_col cols).
    + destruct (keep_at_least cols qc_col threshold rs) as [k|] eqn:E;
        [| discriminate].
      intros H. rewrite (IH _ _ H), (keep_at_least_filter _ _ _ _ E).
      apply filter_filter.
    + intros H. now rewrite (IH _ _ H).
Qed.

Lemma apply_qc_numeric (thresholds : list (str * Q)) (rs : list row) :
  (forall ct r s, In ct thresholds -> has_column (fst ct) cols = true ->
                  In r rs -> get cols r (fst ct) <> Text s) ->
  exists kept, apply_qc thresholds cols rs = Some kept.
Proof.
  revert rs.
  induction thresholds as [|[qc_col threshold] rest IH]; simpl; intros rs H.
  - now exists rs.
  - destruct (has_column qc_col cols) eqn:E.
    + rewrite keep_at_least_numeric
        by (intros r s Hin; apply (H (qc_col, threshold)); auto).
      apply IH. intros ct r s Hct Hc Hin. apply filter_In in Hin as [Hin _].
      apply (H ct); auto.
    + apply IH. intros ct r s Hct Hc Hin. apply (H ct); auto.
Qed.

End QCGate.

Lemma qc_gate_done (thresholds : list (str * Q)) (df out : DataFrame) :
  qc_gate thresholds df = Done out ->
  columns out = columns df /\
  rows out = filter (passes thresholds (columns df)) (rows df).
Proof.
  unfold qc_gate.
  destruct (apply_qc thresholds (columns df) (rows df)) as [kept|] eqn:E;
    [| discriminate].
  intros [= <-]. simpl. split; [reflexivity |].
  now apply apply_qc_filter.
Qed.

(** C4, as the code has it.  The gate keeps exactly the rows that hold, in
    every configured QC column the table has, a number at least the
    threshold; a configured field that is no column of the table filters
    nothing.  A row whose cell is missing in a configured column of the
    table is excluded.  The gate returns whenever no configured column holds
    a text. *)
Theorem qc_gate_retains (thresholds : list (str * Q)) (df : DataFrame) :
  (forall out,
      qc_gate thresholds df = Done out ->
      columns out = columns df /\
      rows out = filter (passes thresholds (columns df)) (rows df))
  /\ (numeric_qc thresholds df ->
      qc_gate thresholds df
      = Done (mkDataFrame (columns df)
                (filter (passes thresholds (columns df)) (rows df))))
  /\ (forall out r ct,
         qc_gate thresholds df = Done out ->
         In ct thresholds -> has_column (fst ct) (columns df) = true ->
         get (columns df) r (fst ct) = NaN ->
         ~ In r (rows out)).
Proof.
  pose proof (qc_gate_done thresholds df) as A.
  split; [exact A | split].
  - intros Hn. destruct (apply_qc_numeric (columns df) thresholds (rows df))
      as [kept E]; [exact Hn |].
    unfold qc_gate. rewrite E.
    now rewrite (apply_qc_filter _ _ _ _ E).
  - intros out r ct Hd Hct Hc Hnan Hin.
    destruct (A out Hd) as [_ Hr]. rewrite Hr in Hin.
    apply filter_In in Hin as [_ Hp]. unfold passes in Hp.
    rewrite forallb_forall in Hp. specialize (Hp ct Hct).
    rewrite Hc in Hp. unfold at_least in Hp. now rewrite Hnan in Hp.
Qed.

Lemma qc_gate_retains_witness :
  qc_gate qc_thresholds three_qc_table
  = Done (mkDataFrame (columns three_qc_table)
            (filter (passes qc_thresholds (columns three_qc_table))
               (rows three_qc_table))).
Proof.
  apply (proj1 (proj2 (qc_gate_retains qc_thresholds three_qc_table))).
  intros ct r s Hct _ Hr.
  simpl in Hct, Hr.
  destruct Hct as [<- | [<- | [<- | []]]];
    destruct Hr as [<- | [<- | [<- | []]]]; discriminate.
Defined.

(** C4, as stated, fails: the table lacks the configured grey-matter
    column, so its row lacks that field, and the row is kept. *)
Lemma qc_gate_skips_absent_column :
  qc_gate qc_thresholds two_qc_table = Done two_qc_table /\
  Forall (fun r =>
            get (columns two_qc_table) r (py "qc_general grey matter") = NaN
            /\ satisfies_all qc_thresholds (columns two_qc_table) r = false)
    (rows two_qc_table).
Proof.
  split; [reflexivity |]. repeat constructor.
Qed.

(** ** Per-dataset join and union *)

Section Joins.

Lemma reindex_length (cols : list str) (df : DataFrame) :
  length (reindex cols df) = length (rows df).
Proof. unfold reindex. apply length_map. Qed.

Lemma filter_flat_map {A B : Type} (p : B -> bool) (f : A -> list B)
    (l : list A) :
  filter p (flat_map f l) = flat_map (fun x => filter p (f x)) l.
Proof.
  induction l as [|x l IH]; simpl; [reflexivity |].
  now rewrite filter_app, IH.
Qed.

Lemma list_sum_le {A : Type} (f g : A -> nat) (l : list A) :
  (forall x, In x l -> f x <= g x) ->
  list_sum (map f l) <= list_sum (map g l).
Proof.
  induction l as [|x l IH]; simpl; intros H; [lia |].
  specialize (H x (or_introl eq_refl)) as Hx.
  assert (list_sum (map f l) <= list_sum (map g l))
    by (apply IH; intros y Hy; apply H; now right).
  lia.
Qed.

Lemma list_sum_ones {A : Type} (f : A -> nat) (l : list A) :
  (forall x, In x l -> f x <= 1) -> list_sum (map f l) <= length l.
Proof.
  induction l as [|x l IH]; simpl; intros H; [lia |].
  specialize (H x (or_introl eq_refl)) as Hx.
  assert (list_sum (map f l) <= length l)
    by (apply IH; intros y Hy; apply H; now right).
  lia.
Qed.

Lemma concat_rows (frames : list DataFrame) :
  rows (concat frames)
  = flat_map (reindex (columns (concat frames))) frames.
Proof. reflexivity. Qed.


(** The number of rows of an inner join: for every left row, the number of
    right rows with its key. *)
Lemma merge_length (left right : DataFrame) (left_on right_on : str) :
  length (rows (merge left right left_on right_on))
  = list_sum
      (map (fun l =>
              length
                (filter (fun r =>
                           key_eqb (get (columns left) l left_on)
                                   (get (columns right) r right_on))
                   (rows right)))
         (rows left)).
Proof.
  unfold merge. simpl. rewrite length_flat_map. f_equal.
  apply map_ext. intros l. apply length_map.
Qed.

Lemma key_eqb_sym (a b : cell) : key_eqb a b = key_eqb b a.
Proof.
  destruct a, b; simpl; try reflexivity.
  - apply Qeq_bool_comm.
  - apply str_eqb_sym.
Qed.

Lemma key_eqb_trans (a b c : cell) :
  key_eqb a b = true -> key_eqb b c = true -> key_eqb a c = true.
Proof.
  destruct a, b, c; simpl; try discriminate; try reflexivity.
  - apply Qeq_bool_trans.
  - rewrite !str_eqb_eq. congruence.
Qed.

Lemma distinct_keys_once (keys : list cell) (k : cell) :
  distinct_keys keys = true -> length (filter (key_eqb k) keys) <= 1.
Proof.
  induction keys as [|k1 rest IH]; simpl; [lia |].
  rewrite andb_true_iff, negb_true_iff. intros [Hn Hd].
  destruct (key_eqb k k1) eqn:E; [| now apply IH].
  rewrite filter_none; [simpl; lia |].
  intros k2 Hin. destruct (key_eqb k k2) eqn:E2; [| reflexivity].
  exfalso. assert (Hex : existsb (key_eqb k1) rest = true).
  { apply existsb_exists. exists k2. split; [exact Hin |].
    apply key_eqb_trans with k; [| exact E2].
    now rewrite key_eqb_sym. }
  congruence.
Qed.

Lemma filter_map_length {A B : Type} (p : B -> bool) (f : A -> B)
    (l : list A) :
  length (filter (fun x => p (f x)) l) = length (filter p (map f l)).
Proof.
  induction l as [|x l IH]; simpl; [reflexivity |].
  destruct (p (f x)); simpl; now rewrite IH.
Qed.

Lemma merge_unique_le (left right : DataFrame) (left_on right_on : str) :
  distinct_keys
    (map (fun r => get (columns right) r right_on) (rows right)) = true ->
  length (rows (merge left right left_on right_on)) <= length (rows left).
Proof.
  intros H. rewrite merge_length. apply list_sum_ones. intros l _.
  rewrite (filter_map_length
             (key_eqb (get (columns left) l left_on))
             (fun r => get (columns right) r right_on)).
  now apply distinct_keys_once.
Qed.

Variable selected_df : DataFrame.
Variable subject_col : str.

Let of_dataset (dataset : str) (r : row) : bool :=
  cell_is_text dataset (get (columns selected_df) r (py "dataset")).

(** What a dataset contributes to [matched_data]. *)
Let contribution (kv : str * DataFrame) : nat :=
  match match_dataset selected_df subject_col (fst kv) (snd kv) with
  | Some merged => length (rows merged)
  | None => 0
  end.

Lemma matched_counts (volumes_dfs : list (str * DataFrame)) :
  list_sum (map match_count
              (matched_data selected_df subject_col volumes_dfs))
  = list_sum (map contribution volumes_dfs).
Proof.
  unfold matched_data, contribution.
  induction volumes_dfs as [|kv l IH]; simpl; [reflexivity |].
  rewrite map_app, list_sum_app, IH.
  destruct (match_dataset selected_df subject_col (fst kv) (snd kv));
    simpl; [unfold match_count; simpl; lia | reflexivity].
Qed.

Lemma contribution_le (kv : str * DataFrame) :
  unique_ids (snd kv) = true ->
  contribution kv <= length (filter (of_dataset (fst kv)) (rows selected_df)).
Proof.
  unfold contribution, match_dataset, unique_ids, of_dataset.
  intros H.
  destruct (filter (fun r => cell_is_text (fst kv)
                               (get (columns selected_df) r (py "dataset")))
              (rows selected_df)) as [|r0 rs] eqn:E; [simpl; lia |].
  destruct (filter (fun col => contains (py "subject") (lower col))
              (columns (snd kv))) as [|c cs]; [simpl; lia |].
  etransitivity; [apply merge_unique_le; exact H |]. reflexivity.
Qed.

Lemma one_dataset_per_row (datasets : list str) (r : row) :
  NoDup datasets ->
  list_sum (map (fun d => if of_dataset d r then 1 else 0) datasets) <= 1.
Proof.
  induction 1 as [|d l Hd Hn IH]; simpl; [lia |].
  destruct (of_dataset d r) eqn:E; [| lia].
  assert (Z : list_sum (map (fun d' => if of_dataset d' r then 1 else 0) l)
              = 0).
  { clear IH Hn. induction l as [|d' l IHl]; simpl; [reflexivity |].
    destruct (of_dataset d' r) eqn:E'.
    - exfalso. apply Hd. left. unfold of_dataset, cell_is_text in E, E'.
      destruct (get (columns selected_df) r (py "dataset"));
        try discriminate.
      apply str_eqb_eq in E, E'. congruence.
    - apply IHl. intros Hin. apply Hd. now right. }
  lia.
Qed.

Lemma datasets_partition (datasets : list str) (rs : list row) :
  NoDup datasets ->
  list_sum (map (fun d => length (filter (of_dataset d) rs)) datasets)
  <= length rs.
Proof.
  intros Hn. induction rs as [|r rs IH]; simpl.
  - induction datasets; simpl; [lia |].
    inversion Hn; subst. auto.
  - pose proof (one_dataset_per_row datasets r Hn) as H1.
    assert (E : list_sum
                  (map (fun d => length (if of_dataset d r
                                         then r :: filter (of_dataset d) rs
                                         else filter (of_dataset d) rs))
                     datasets)
                = list_sum (map (fun d => if of_dataset d r then 1 else 0)
                              datasets)
                  + list_sum (map (fun d => length (filter (of_dataset d) rs))
                                datasets)).
    { clear. induction datasets as [|d l IHl]; simpl; [reflexivity |].
      rewrite IHl. destruct (of_dataset d r); simpl; lia. }
    rewrite E. lia.
Qed.

Lemma matched_le_selected (volumes_dfs : list (str * DataFrame)) :
  NoDup (map fst volumes_dfs) ->
  Forall (fun kv => unique_ids (snd kv) = true) volumes_dfs ->
  list_sum (map match_count
              (matched_data selected_df subject_col volumes_dfs))
  <= length (rows selected_df).
Proof.
  intros Hn Hu. rewrite matched_counts.
  etransitivity.
  - apply (list_sum_le contribution
             (fun kv => length (filter (of_dataset (fst kv))
                                  (rows selected_df)))).
    intros kv Hin. apply contribution_le.
    rewrite Forall_forall in Hu. now apply Hu.
  - rewrite <- (map_map fst
                  (fun d => length (filter (of_dataset d)
                                      (rows selected_df)))).
    now apply datasets_partition.
Qed.

End Joins.

(** ** Subject reconciler *)

Section Reconcile.

Variable thresholds : list (str * Q).
Variable volumes_dfs : list (str * DataFrame).
Variable loaded : DataFrame.

Lemma combine_done (out : DataFrame) :
  combine thresholds volumes_dfs loaded = Done out ->
  qc_gate thresholds (concat (map snd (matches volumes_dfs loaded)))
  = Done out.
Proof.
  unfold combine, matches.
  destruct (find_subject_col loaded) as [subject_col|]; [| discriminate].
  destruct (matched_data (with_dataset_column subject_col loaded)
              subject_col volumes_dfs); [discriminate | trivial].
Qed.

Lemma with_dataset_column_length (subject_col : str) :
  length (rows (with_dataset_column subject_col loaded))
  = length (rows loaded).
Proof.
  unfold with_dataset_column.
  destruct (has_column (py "dataset") (columns loaded)); [reflexivity |].
  apply length_map.
Qed.



Lemma combine_rows (out : DataFrame) :
  combine thresholds volumes_dfs loaded = Done out ->
  let matched := matches volumes_dfs loaded in
  let combined := concat (map snd matched) in
  columns out = columns combined /\
  rows out
  = flat_map (fun kv => filter (passes thresholds (columns combined))
                          (reindex (columns combined) (snd kv)))
      matched.
Proof.
  intros H matched combined. subst matched combined.
  apply combine_done in H.
  apply qc_gate_done in H as [Hc Hr]. split; [exact Hc |].
  rewrite Hr, concat_rows, filter_flat_map, flat_map_concat_map, map_map,
    <- flat_map_concat_map.
  reflexivity.
Qed.

Lemma combine_rows_le (out : DataFrame) :
  combine thresholds volumes_dfs loaded = Done out ->
  length (rows out)
  <= list_sum (map match_count (matches volumes_dfs loaded)).
Proof.
  intros H. destruct (combine_rows out H) as [_ Hr]. rewrite Hr.
  rewrite length_flat_map. apply list_sum_le. intros kv _.
  etransitivity; [apply filter_length_le |].
  now rewrite reindex_length.
Qed.

End Reconcile.




(** C8, as the code has it.  Every row of the final table passes every
    configured filter whose column the table has.  When no volumes table
    has two rows for one identifier, the final table has at most as many
    rows as the table of subjects. *)
Theorem harmonized_rows_bounded (thresholds : list (str * Q))
    (volumes_dfs : list (str * DataFrame)) (loaded out : DataFrame) :
  combine thresholds volumes_dfs loaded = Done out ->
  Forall (fun r => passes thresholds (columns out) r = true) (rows out)
  /\ (NoDup (map fst volumes_dfs) ->
      Forall (fun kv => unique_ids (snd kv) = true) volumes_dfs ->
      length (rows out) <= length (rows loaded)).
Proof.
  intros H. split.
  - pose proof (combine_done _ _ _ _ H) as Hg.
    apply qc_gate_done in Hg as [Hc Hr]. rewrite Hc, Hr.
    apply Forall_forall. intros r Hin. now apply filter_In in Hin.
  - intros Hn Hu. etransitivity; [exact (combine_rows_le _ _ _ _ H) |].
    unfold matches. destruct (find_subject_col loaded) as [sc|]; [| simpl; lia].
    rewrite <- (with_dataset_column_length loaded sc).
    now apply matched_le_selected.
Qed.

Lemma harmonized_rows_bounded_witness :
  combine qc_thresholds volumes_good one_subject = Done harmonized_good /\
  length (rows harmonized_good) <= length (rows one_subject).
Proof.
  assert (H : combine qc_thresholds volumes_good one_subject
              = Done harmonized_good) by reflexivity.
  split; [exact H |].
  apply (proj2 (harmonized_rows_bounded _ _ _ _ H)).
  - repeat constructor. intros [].
  - repeat constructor.
Defined.

(** C8, as stated, fails: one subject with two scans in the volumes table
    gives two rows. *)
Lemma harmonized_rows_exceed_subjects :
  exists out,
    combine qc_thresholds volumes_two_scans one_subject = Done out /\
    length (rows out) = 2 /\
    length (rows one_subject) = 1 /\
    ~ length (rows out) <= length (rows one_subject).
Proof.
  eexists. split; [reflexivity |]. simpl. repeat split. lia.
Qed.

(** * Further properties *)

(** ** Case and lines *)

Section CaseAndLines.

Lemma lower_char_idem (c : ascii) : lower_char (lower_char c) = lower_char c.
Proof.
  destruct c as [[] [] [] [] [] [] [] []]; reflexivity.
Qed.

Lemma lower_idem (s : str) : lower (lower s) = lower s.
Proof.
  unfold lower. rewrite map_map. apply map_ext. apply lower_char_idem.
Qed.

Lemma lower_char_newline (c : ascii) : lower_char c = newline -> c = newline.
Proof.
  destruct c as [[] [] [] [] [] [] [] []]; intros H;
    solve [reflexivity | discriminate H].
Qed.

Lemma lower_one_line (s : str) : one_line s -> one_line (lower s).
Proof.
  unfold one_line, lower. intros H. apply Forall_map.
  revert H. apply Forall_impl. intros c Hc E. now apply Hc, lower_char_newline.
Qed.

Lemma lower_app (a b : str) : lower (a ++ b) = lower a ++ lower b.
Proof. apply map_app. Qed.

Lemma lower_length (s : str) : length (lower s) = length s.
Proof. apply length_map. Qed.

Lemma app_same_length {A : Type} (a a' b b' : list A) :
  length a = length a' -> a ++ b = a' ++ b' -> a = a' /\ b = b'.
Proof.
  revert a'. induction a as [|x a IH]; intros [|y a'] L E; simpl in *;
    try discriminate.
  - now split.
  - injection E as -> E. destruct (IH a') as [-> ->]; auto.
Qed.

(** A block of a lowered string is lowered. *)
Lemma lowered_block (s pre mid post : str) :
  lower s = pre ++ mid ++ post -> lower mid = mid.
Proof.
  intros E. pose proof (lower_idem s) as H.
  rewrite E, !lower_app in H.
  apply app_same_length in H as [_ H]; [| apply lower_length].
  apply app_same_length in H as [H _]; [exact H | apply lower_length].
Qed.

Lemma first_line_app (a b : str) :
  one_line a -> first_line (a ++ b) = a ++ first_line b.
Proof.
  induction 1 as [|c a Hc _ IH]; simpl; [reflexivity |].
  apply Ascii.eqb_neq in Hc. now rewrite Hc, IH.
Qed.

Lemma first_line_split (s : str) :
  one_line (first_line s) /\ exists rest, s = first_line s ++ rest.
Proof.
  induction s as [|c s [IH1 [rest IH2]]]; simpl.
  - split; [constructor | now exists []].
  - destruct (Ascii.eqb c newline) eqn:E.
    + split; [constructor | now exists (c :: s)].
    + apply Ascii.eqb_neq in E. split; [now constructor |].
      exists rest. simpl. now rewrite <- IH2.
Qed.

Lemma first_line_one_line (s : str) : one_line s -> first_line s = s.
Proof.
  intros H. rewrite <- (app_nil_r s) at 1.
  rewrite first_line_app by exact H. apply app_nil_r.
Qed.

(** A one-line word sits in a string with no newline before it exactly when
    it sits in the first line. *)
Lemma occurs_first_line (w t : str) :
  one_line w ->
  (exists pre post, t = pre ++ w ++ post /\ one_line pre)
  <-> occurs w (first_line t).
Proof.
  intros Hw. split.
  - intros (pre & post & -> & Hp).
    exists pre, (first_line post).
    rewrite first_line_app by exact Hp. f_equal. now apply first_line_app.
  - intros (pre & post & E).
    destruct (first_line_split t) as [H1 [rest H2]].
    exists pre, (post ++ rest). split.
    + rewrite H2 at 1. rewrite E, <- !app_assoc. reflexivity.
    + rewrite E in H1. unfold one_line in *. now apply Forall_app in H1.
Qed.

Lemma re_match_lits_ic (r : regex) (w t : str) :
  re_match true (lits w ++ r) t = true <->
  exists mid rest,
    t = mid ++ rest /\ lower mid = lower w /\ re_match true r rest = true.
Proof.
  revert t. induction w as [|a w IH]; intros t; simpl.
  - split.
    + intros H. now exists [], t.
    + intros (mid & rest & -> & E & H). destruct mid; [exact H | discriminate].
  - destruct t as [|c t].
    + split; [discriminate |].
      intros (mid & rest & E & El & _). destruct mid; discriminate.
    + rewrite andb_true_iff, Ascii.eqb_eq, IH. split.
      * intros [Hc (mid & rest & -> & El & H)].
        exists (c :: mid), rest. simpl. now rewrite Hc, El.
      * intros (mid & rest & E & El & H). destruct mid as [|c' mid];
          [discriminate |].
        simpl in E, El. injection E as -> ->. injection El as Hc El.
        split; [exact Hc | now exists mid, rest].
Qed.

(** With [re.IGNORECASE], [.*w.*] matches the strings that hold a block
    equal to [w] up to case, with no newline before it. *)
Lemma re_match_dotstar_ic (w t : str) :
  re_match true (dotstar w) t = true <->
  exists pre mid post,
    t = pre ++ mid ++ post /\ lower mid = lower w /\ one_line pre.
Proof.
  unfold dotstar. rewrite re_match_dot_star. split.
  - intros (pre & rest & -> & Hp & Hr).
    apply re_match_lits_ic in Hr as (mid & post & -> & El & _).
    now exists pre, mid, post.
  - intros (pre & mid & post & -> & El & Hp). exists pre, (mid ++ post).
    repeat split; [exact Hp |]. apply re_match_lits_ic.
    exists mid, post. repeat split; [exact El | apply re_match_star_end].
Qed.

Lemma bool_iff (a b : bool) : (a = true <-> b = true) -> a = b.
Proof.
  destruct a, b; intros [H1 H2]; auto.
  - symmetry. now apply H1.
Qed.

(** The exclusion test of one word: a search in the first line. *)
Lemma excluded_word (w t : str) :
  one_line w ->
  re_match false (dotstar w) t = contains w (first_line t).
Proof.
  intros Hw. apply bool_iff.
  rewrite re_match_dotstar, contains_iff. now apply occurs_first_line.
Qed.

(** The inclusion test of one word, on a lowered label: a search for the
    lowered word in the first line. *)
Lemma included_word (w s : str) :
  one_line w ->
  re_match true (dotstar w) (lower s)
  = contains (lower w) (first_line (lower s)).
Proof.
  intros Hw. apply bool_iff.
  rewrite re_match_dotstar_ic, contains_iff,
    <- (occurs_first_line _ _ (lower_one_line _ Hw)).
  split.
  - intros (pre & mid & post & E & El & Hp).
    exists pre, post. split; [| exact Hp].
    rewrite <- El, (lowered_block _ _ _ _ E). exact E.
  - intros (pre & post & E & Hp).
    exists pre, (lower w), post. repeat split; auto. apply lower_idem.
Qed.

Lemma existsb_map_in {A B : Type} (f : B -> bool) (g : A -> B)
    (h : A -> bool) (l : list A) :
  (forall x, In x l -> f (g x) = h x) ->
  existsb f (map g l) = existsb h l.
Proof.
  induction l as [|x l IH]; simpl; intros H; [reflexivity |].
  rewrite H by now left. f_equal. apply IH. intros y Hy. apply H. now right.
Qed.

Lemma words_one_line (w : str) :
  In w (EXCLUDE_WORDS ++ T1_WORDS) -> one_line w.
Proof.
  intros Hw. simpl in Hw.
  repeat (destruct Hw as [<- | Hw]; [repeat constructor; discriminate |]).
  destruct Hw.
Qed.

End CaseAndLines.

Lemma is_t1_sequence_words (label : str) :
  is_t1_sequence label
  = negb (existsb (fun w => contains w (first_line (lower label)))
            EXCLUDE_WORDS)
    && existsb (fun w => contains (lower w) (first_line (lower label)))
         T1_WORDS.
Proof.
  unfold is_t1_sequence.
  change EXCLUDE_PATTERNS with (map dotstar EXCLUDE_WORDS).
  change T1_PATTERNS with (map dotstar T1_WORDS).
  rewrite (existsb_map_in _ dotstar
             (fun w => contains w (first_line (lower label))) EXCLUDE_WORDS).
  2:{ intros w Hw. apply excluded_word, words_one_line, in_or_app. now left. }
  rewrite (existsb_map_in _ dotstar
             (fun w => contains (lower w) (first_line (lower label)))
             T1_WORDS).
  2:{ intros w Hw. apply included_word, words_one_line, in_or_app.
      now right. }
  repeat match goal with
         | |- context [if ?a then _ else _] => destruct a; simpl
         end; reflexivity.
Qed.


(** X2. Case is ignored throughout: the lowered label is classified and
    ranked like the label itself. *)
Theorem lowered_label_same (label : str) :
  is_t1_sequence (lower label) = is_t1_sequence label /\
  get_sequence_priority (lower label) = get_sequence_priority label.
Proof.
  unfold is_t1_sequence, get_sequence_priority, priority_in.
  rewrite lower_idem. split; [reflexivity |].
  assert (H : forall k table,
             first_hit k table (lower label) = first_hit k table label).
  { intros k table. revert k. induction table as [|e t IH]; intros k; simpl;
      [reflexivity |]. now rewrite lower_idem, IH. }
  now rewrite H.
Qed.

(** ** Ranks *)

Section Ranks.

Lemma occurs_trans (a b c : str) : occurs a b -> occurs b c -> occurs a c.
Proof.
  intros (p1 & q1 & ->) (p2 & q2 & ->).
  exists (p2 ++ p1), (q1 ++ q2). now rewrite <- !app_assoc.
Qed.

Lemma priority_in_bound (table : list str) (label : str) (i : nat)
    (e : str) :
  nth_error table i = Some e -> ci_substring e label ->
  priority_in table label <= i.
Proof.
  intros Hn He.
  destruct (Nat.le_gt_cases (priority_in table label) i) as [H | H];
    [exact H | exfalso].
  assert (Hi : i < length table) by (apply nth_error_Some; congruence).
  destruct (Nat.eq_dec (priority_in table label) (length table)) as [E | E].
  - pose proof (proj2 (priority_in_none label table) E) as Hnone.
    now apply (Hnone e (nth_error_In _ _ Hn)).
  - pose proof (priority_in_le label table) as Hle.
    destruct (priority_in_hit label table) as (e' & _ & _ & Hmin); [lia |].
    now apply (Hmin i e H Hn).
Qed.

Lemma priority_in_above (table : list str) (label : str) (i : nat) :
  i < length table ->
  (forall j e, j <= i -> nth_error table j = Some e ->
               ~ ci_substring e label) ->
  i < priority_in table label.
Proof.
  intros Hi Hno.
  destruct (Nat.le_gt_cases (priority_in table label) i) as [H | H];
    [exfalso | exact H].
  destruct (priority_in_hit label table) as (e' & Hn & He & _); [lia |].
  now apply (Hno _ e' H Hn).
Qed.

(** An entry that holds an earlier entry is never the first hit. *)
Lemma priority_in_shadowed (table : list str) (label : str) (i j : nat)
    (e e' : str) :
  nth_error table i = Some e -> nth_error table j = Some e' -> j < i ->
  occurs (lower e') (lower e) ->
  priority_in table label <> i.
Proof.
  intros Hi Hj Hlt Hsub E.
  assert (Hlen : i < length table) by (apply nth_error_Some; congruence).
  destruct (priority_in_hit label table) as (e1 & Hn & He & Hmin); [lia |].
  rewrite E in Hn, Hmin. rewrite Hi in Hn. injection Hn as <-.
  apply (Hmin j e' Hlt Hj). unfold ci_substring in *.
  now apply occurs_trans with (lower e).
Qed.

End Ranks.

(** X3. Rank monotonicity: a label that holds entry [i] of the table ranks
    at most [i], and so ranks strictly better than any label that holds
    none of the entries [0..i]. *)
Theorem earlier_entry_ranks_better (l1 l2 : str) (i : nat) (e : str) :
  nth_error SEQUENCE_PRIORITY i = Some e ->
  ci_substring e l1 ->
  (forall j e', j <= i -> nth_error SEQUENCE_PRIORITY j = Some e' ->
                ~ ci_substring e' l2) ->
  get_sequence_priority l1 <= i /\
  get_sequence_priority l1 < get_sequence_priority l2.
Proof.
  intros Hn He Hno. unfold get_sequence_priority.
  pose proof (priority_in_bound _ _ _ _ Hn He) as H1.
  assert (Hi : i < length SEQUENCE_PRIORITY)
    by (apply nth_error_Some; congruence).
  pose proof (priority_in_above _ l2 i Hi Hno) as H2.
  split; [exact H1 | lia].
Qed.

Lemma earlier_entry_ranks_better_witness :
  get_sequence_priority (py "SAG_3D_MPRAGE") <= 3 /\
  get_sequence_priority (py "SAG_3D_MPRAGE")
  < get_sequence_priority (py "FSPGR").
Proof.
  apply (earlier_entry_ranks_better (py "SAG_3D_MPRAGE") (py "FSPGR") 3
           (py "MPRAGE")).
  - reflexivity.
  - apply contains_iff. reflexivity.
  - intros j e' Hj Hn. apply contains_false_iff.
    do 4 (destruct j as [|j]; [injection Hn as <-; reflexivity |]).
    lia.
Defined.

(** X4. The entries SAG_3D_MPRAGE, SAG_3D_T1_MPRAGE and 3D_T1_MPRAGE of the
    table stand after MPRAGE, which they hold: no label ever gets their
    ranks 4, 5 or 6. *)
Theorem shadowed_ranks_never_returned (label : str) :
  get_sequence_priority label <> 4 /\
  get_sequence_priority label <> 5 /\
  get_sequence_priority label <> 6.
Proof.
  unfold get_sequence_priority.
  repeat split;
    (eapply (priority_in_shadowed SEQUENCE_PRIORITY label _ 3 _ (py "MPRAGE"));
     [reflexivity | reflexivity | lia | apply contains_iff; reflexivity]).
Qed.

(** Every entry of the table holds one of the T1 words. *)
Lemma entries_hold_t1_word (e : str) :
  In e SEQUENCE_PRIORITY ->
  exists w, In w T1_WORDS /\ occurs (lower w) (lower e).
Proof.
  intros H. simpl in H.
  repeat (destruct H as [<- | H];
          [first [ exists (py "T1"); split;
                   [simpl; auto | apply contains_iff; reflexivity]
                 | exists (py "MPRAGE"); split;
                   [simpl; auto | apply contains_iff; reflexivity]
                 | exists (py "FSPGR"); split;
                   [simpl; auto | apply contains_iff; reflexivity] ] |]).
  destruct H.
Qed.

(** X5. The ranker and the classifier agree: a one-line label that gets a
    rank from the table and holds no exclusion word is accepted by
    [is_t1_sequence]. *)
Theorem ranked_label_is_t1 (label : str) :
  one_line label ->
  get_sequence_priority label < length SEQUENCE_PRIORITY ->
  (forall w, In w EXCLUDE_WORDS -> ~ occurs w (lower label)) ->
  is_t1_sequence label = true.
Proof.
  intros Hone Hr Hex. rewrite is_t1_sequence_words.
  rewrite (first_line_one_line _ (lower_one_line _ Hone)).
  apply andb_true_iff. split.
  - apply negb_true_iff, not_true_is_false. intros H.
    apply existsb_exists in H as (w & Hw & Hc).
    apply contains_iff in Hc. now apply (Hex w Hw).
  - destruct (priority_in_hit label SEQUENCE_PRIORITY Hr)
      as (e & Hn & He & _).
    destruct (entries_hold_t1_word e (nth_error_In _ _ Hn))
      as (w & Hw & Hwe).
    apply existsb_exists. exists w. split; [exact Hw |].
    apply contains_iff. now apply occurs_trans with (lower e).
Qed.

Lemma ranked_label_is_t1_witness :
  is_t1_sequence (py "Sag_3D_FSPGR_BRAVO") = true.
Proof.
  apply ranked_label_is_t1.
  - repeat constructor; discriminate.
  - vm_compute. lia.
  - intros w Hw. apply contains_false_iff. simpl in Hw.
    repeat (destruct Hw as [<- | Hw]; [reflexivity |]). destruct Hw.
Defined.

(** ** Session keys, again *)

Section SessionKeyMore.

Lemma date_ok_short (s : str) : length s < 10 -> date_ok s = false.
Proof.
  intros H. unfold date_ok.
  do 10 (destruct s as [|? s]; [reflexivity |]). simpl in H. lia.
Qed.

Lemma filter_all {A : Type} (f : A -> bool) (l : list A) :
  Forall (fun x => f x = true) l -> filter f l = l.
Proof.
  induction 1 as [|x l Hx _ IH]; simpl; [reflexivity |].
  now rewrite Hx, IH.
Qed.

Lemma filter_sat {A : Type} (f : A -> bool) (l : list A) :
  Forall (fun x => f x = true) (filter f l).
Proof.
  apply Forall_forall. intros x Hx. now apply filter_In in Hx.
Qed.

Lemma Forall_firstn {A : Type} (P : A -> Prop) (n : nat) (l : list A) :
  Forall P l -> Forall P (firstn n l).
Proof.
  intros H. rewrite <- (firstn_skipn n l) in H.
  now apply Forall_app in H.
Qed.

Lemma digit_not_sep (c : ascii) : is_digit c = true -> not_separator c = true.
Proof.
  intros H. destruct (not_separator c) eqn:E; [reflexivity |].
  apply not_separator_false in E. now destruct (digit_not_separator c H).
Qed.

(** The key holds no separator, in either branch. *)
Lemma extract_clean (ts : str) :
  Forall (fun c => not_separator c = true) (extract_session_date ts).
Proof.
  unfold extract_session_date. rewrite date_re_ok.
  destruct (date_ok ts) eqn:E.
  - unfold date_ok in E.
    do 10 (destruct ts as [|? ts]; [discriminate |]).
    rewrite !andb_true_iff in E.
    destruct E as [[[[[[[[[H0 H1] H2] H3] _] H5] H6] _] H8] H9].
    simpl. repeat constructor; now apply digit_not_sep.
  - rewrite strip_is_filter. apply Forall_firstn, filter_sat.
Qed.

Lemma extract_of_clean (k : str) :
  Forall (fun c => not_separator c = true) k -> length k <= 8 ->
  extract_session_date k = k.
Proof.
  intros Hc Hl. unfold extract_session_date.
  rewrite date_re_ok, date_ok_short by lia.
  rewrite strip_is_filter, (filter_all _ _ Hc).
  now apply firstn_all2.
Qed.

End SessionKeyMore.

(** X6. A session key is a fixed point of [extract_session_date], and it
    holds none of the characters [-], [_], [.], whatever the input. *)
Theorem session_key_is_clean (ts : str) :
  extract_session_date (extract_session_date ts) = extract_session_date ts
  /\ Forall (fun c => ~ is_separator c) (extract_session_date ts).
Proof.
  split.
  - apply extract_of_clean; [apply extract_clean | apply extract_length].
  - pose proof (extract_clean ts) as H. revert H. apply Forall_impl.
    intros c Hc Hs. apply not_separator_false in Hs. congruence.
Qed.

(** ** Discovery, again *)

Section DiscoveryMore.

Lemma scan_timestamp_some (subject seq_name : str) (path : list str)
    (timestamp_name : str) (dicom_dirs : list (str * node))
    (c : Candidate) :
  scan_timestamp subject seq_name path timestamp_name dicom_dirs = Some c ->
  subject_id c = subject /\ sequence_name c = seq_name /\
  timestamp c = timestamp_name /\
  session_date c = extract_session_date timestamp_name /\
  priority c = get_sequence_priority seq_name /\
  0 < num_files c /\
  (dicom_path c = path \/ exists child, dicom_path c = path ++ [child]).
Proof.
  unfold scan_timestamp.
  destruct dicom_dirs as [|[n1 d1] rest]; [discriminate |].
  destruct rest as [|e2 rest].
  - destruct (glob_dcm d1) as [|f fs] eqn:E; [discriminate |].
    intros [= <-]. simpl. repeat split; try lia. right. now exists n1.
  - destruct (glob_dcm (Dir ((n1, d1) :: e2 :: rest))) as [|f fs] eqn:E;
      [discriminate |].
    intros [= <-]. simpl. repeat split; try lia. now left.
Qed.

Lemma find_t1_sequences_In (dicom_root : list (str * node)) (subject : str)
    (found : list Candidate) (c : Candidate) :
  find_t1_sequences dicom_root subject = Some found -> In c found ->
  exists seq_name timestamp_name dicom_dirs,
    is_t1_sequence seq_name = true /\
    scan_timestamp subject seq_name [subject; seq_name; timestamp_name]
      timestamp_name dicom_dirs = Some c.
Proof.
  unfold find_t1_sequences.
  destruct (lookup subject dicom_root) as [[|seq_dirs]|];
    [discriminate | | intros [= <-] []].
  intros [= <-] Hin.
  apply in_flat_map in Hin as ([seq_name d] & _ & Hin). simpl in Hin.
  destruct d as [|timestamps]; [destruct Hin |].
  destruct (is_t1_sequence seq_name) eqn:Ht; [| destruct Hin].
  unfold scan_sequence in Hin.
  apply in_flat_map in Hin as ([ts d] & _ & Hin). simpl in Hin.
  destruct d as [|dicom_dirs]; [destruct Hin |].
  destruct (scan_timestamp subject seq_name [subject; seq_name; ts] ts
              dicom_dirs) as [c'|] eqn:E; [| destruct Hin].
  destruct Hin as [<- | []]. now exists seq_name, ts, dicom_dirs.
Qed.

Lemma priority_le_ten (name : str) : get_sequence_priority name <= 10.
Proof. apply (priority_in_le name SEQUENCE_PRIORITY). Qed.

Lemma find_t1_sequences_sound (dicom_root : list (str * node))
    (subject : str) (found : list Candidate) (c : Candidate) :
  find_t1_sequences dicom_root subject = Some found -> In c found ->
  subject_id c = subject /\
  is_t1_sequence (sequence_name c) = true /\
  priority c = get_sequence_priority (sequence_name c) /\
  priority c <= 10 /\
  session_date c = extract_session_date (timestamp c) /\
  0 < num_files c /\
  (dicom_path c = [subject; sequence_name c; timestamp c] \/
   exists child,
     dicom_path c = [subject; sequence_name c; timestamp c; child]).
Proof.
  intros Hf Hin.
  destruct (find_t1_sequences_In _ _ _ _ Hf Hin) as (q & t & dd & Ht & Hs).
  apply scan_timestamp_some in Hs
    as (Hsub & Hq & Hts & Hd & Hp & Hn & Hpath).
  rewrite Hq, Hts, Hp.
  split; [exact Hsub |]. split; [exact Ht |]. split; [reflexivity |].
  split; [apply priority_le_ten |]. split; [exact Hd |].
  split; [exact Hn |].
  destruct Hpath as [-> | [child ->]]; [now left | right; now exists child].
Qed.

End DiscoveryMore.

(** X7. Every candidate [find_t1_sequences] returns belongs to the subject
    asked for, carries a name [is_t1_sequence] accepts, the rank of that
    name (at most 10), the session key of its timestamp, at least one file,
    and a path three or four names long below the root. *)
Theorem discovered_candidates_are_sound (dicom_root : list (str * node))
    (subject : str) (found : list Candidate) (c : Candidate) :
  find_t1_sequences dicom_root subject = Some found -> In c found ->
  subject_id c = subject /\
  is_t1_sequence (sequence_name c) = true /\
  priority c = get_sequence_priority (sequence_name c) /\
  priority c <= 10 /\
  session_date c = extract_session_date (timestamp c) /\
  0 < num_files c /\
  (dicom_path c = [subject; sequence_name c; timestamp c] \/
   exists child,
     dicom_path c = [subject; sequence_name c; timestamp c; child]).
Proof. apply find_t1_sequences_sound. Qed.

Lemma discovered_candidates_are_sound_witness :
  0 < num_files (mkCandidate (py "3000") (py "MPRAGE") (py "20110405")
                   (py "2011-04-05_14_45_45.0")
                   [py "3000"; py "MPRAGE"; py "2011-04-05_14_45_45.0";
                    py "I1"] 2 3).
Proof.
  apply (proj1 (proj2 (proj2 (proj2 (proj2 (proj2
           (discovered_candidates_are_sound
              (single_tree (py "3000") (py "MPRAGE")
                 (py "2011-04-05_14_45_45.0")
                 [(py "I1", Dir [(py "a.dcm", File); (py "b.dcm", File)])])
              (py "3000") _ _ eq_refl (or_introl eq_refl)))))))).
Defined.

(** ** Selection, again *)

Section Minimal.

Context {A : Type}.
Variable sess : A -> str.
Variable prio : A -> nat.

Lemma group_of_member (k : str) (sessions : list (str * list A)) :
  group_of k sessions <> [] -> In (k, group_of k sessions) sessions.
Proof.
  induction sessions as [|[k' g] rest IH]; simpl; intros H.
  - now destruct H.
  - destruct (str_eqb k' k) eqn:E.
    + apply str_eqb_eq in E. subst. now left.
    + right. now apply IH.
Qed.

Lemma group_by_session_keys (sequences : list A) :
  NoDup (map fst (group_by_session sess sequences)).
Proof.
  apply (fold_add_keyed sess sequences []). split; constructor.
Qed.

Lemma group_by_session_In (k : str) (g : list A) (sequences : list A) :
  In (k, g) (group_by_session sess sequences) ->
  g = session_group sess k sequences.
Proof.
  intros H. rewrite <- (group_by_session_group sess k sequences).
  symmetry. apply group_of_In; [apply group_by_session_keys | exact H].
Qed.

Lemma session_group_In (k : str) (x : A) (l : list A) :
  In x (session_group sess k l) <-> In x l /\ sess x = k.
Proof.
  unfold session_group, in_session. rewrite filter_In, str_eqb_eq.
  reflexivity.
Qed.

Lemma best_of_In (g : list A) (x : A) :
  In x (best_of prio g) <-> In x g /\ forall d, In d g -> prio x <= prio d.
Proof.
  unfold best_of, attains_min. rewrite filter_In, forallb_forall.
  split; intros [H1 H2]; (split; [exact H1 |]); intros d Hd.
  - apply Nat.leb_le. now apply H2.
  - apply Nat.leb_le. now apply H2.
Qed.

Lemma best_of_nonempty (g : list A) (x : A) :
  In x g -> exists b, In b (best_of prio g) /\ prio b <= prio x.
Proof.
  intros Hx. destruct (sort_by prio g) as [|first rest] eqn:E.
  - apply sort_nil in E. subst. destruct Hx.
  - destruct (sort_head_min prio g first rest E) as [Hin Hmin].
    exists first. split; [| now apply Hmin].
    apply best_of_In. now split.
Qed.

(** The objects written are the session-wise minima of the list. *)
Lemma planned_In (sequences : list A) (x : A) :
  In x (map fst (flat_map (fun kv => session_writes prio (snd kv))
                   (group_by_session sess sequences)))
  <-> In x sequences /\
      forall d, In d sequences -> sess d = sess x -> prio x <= prio d.
Proof.
  rewrite in_map_iff. split.
  - intros ([y v] & <- & Hin). simpl.
    apply in_flat_map in Hin as ([k g] & Hkg & Hw). simpl in Hw.
    apply (in_map fst) in Hw. rewrite session_writes_fst in Hw. simpl in Hw.
    apply group_by_session_In in Hkg. subst g.
    apply best_of_In in Hw as [Hy Hmin].
    apply session_group_In in Hy as [Hy Hk]. split; [exact Hy |].
    intros d Hd Hs. apply Hmin, session_group_In. split; congruence.
  - intros [Hx Hmin].
    assert (Hg : In x (session_group sess (sess x) sequences))
      by (apply session_group_In; now split).
    assert (Hb : In x (best_of prio (session_group sess (sess x) sequences))).
    { apply best_of_In. split; [exact Hg |]. intros d Hd.
      apply session_group_In in Hd as [Hd Hs]. now apply Hmin. }
    rewrite <- session_writes_fst in Hb.
    apply in_map_iff in Hb as ([y v] & Hy & Hb). simpl in Hy. subst y.
    exists (x, v). split; [reflexivity |].
    apply in_flat_map.
    exists (sess x, session_group sess (sess x) sequences).
    split; [| exact Hb].
    rewrite <- (group_by_session_group sess (sess x) sequences).
    apply group_of_member. rewrite group_by_session_group.
    intros E. rewrite E in Hg. destruct Hg.
Qed.

End Minimal.

Section SelectionMore.

Variable sequences : list ref.
Variable st : store.

Let st' := fst (select_best_sequences sequences st).
Let out := snd (select_best_sequences sequences st).

Lemma selected_In (r : ref) :
  In r out <->
  In r sequences /\
  forall d, In d sequences -> session_at st d = session_at st r ->
            priority_at st r <= priority_at st d.
Proof.
  unfold out. rewrite select_best_sequences_eq. simpl.
  unfold all_writes. apply planned_In.
Qed.

Lemma selected_NoDup : NoDup sequences -> NoDup out.
Proof.
  intros Hn. unfold out. rewrite select_best_sequences_eq. simpl.
  unfold all_writes.
  apply (writes_NoDup (session_at st)). now apply group_by_session_ok.
Qed.

Lemma unselected_untouched (r : ref) : ~ In r out -> st' r = st r.
Proof.
  unfold out, st'. rewrite select_best_sequences_eq. simpl.
  apply apply_writes_other.
Qed.

Lemma selected_info (r : ref) : info (st' r) = info (st r).
Proof.
  unfold st'. rewrite select_best_sequences_eq. simpl.
  apply apply_writes_info.
Qed.

Lemma session_served (r : ref) :
  In r sequences ->
  exists b, In b out /\ session_at st b = session_at st r /\
            priority_at st b <= priority_at st r.
Proof.
  intros Hr.
  set (g := session_group (session_at st) (session_at st r) sequences).
  assert (Hg : In r g) by (apply session_group_In; now split).
  destruct (best_of_nonempty (priority_at st) g r Hg) as (b & Hb & Hle).
  apply best_of_In in Hb as [Hbg Hmin].
  apply session_group_In in Hbg as [Hbs Hbk].
  exists b. split; [| now split].
  apply selected_In. split; [exact Hbs |].
  intros d Hd Hs. apply Hmin, session_group_In. split; congruence.
Qed.

End SelectionMore.

(** X8. An object is selected exactly when it is in the list and no object
    of the list with its session key has a smaller rank.  The discovery
    keys of every object stay as they were, and an object that is not
    selected is not written at all. *)
Theorem selected_iff_minimal (sequences : list ref) (st : store) (r : ref) :
  let st' := fst (select_best_sequences sequences st) in
  let out := snd (select_best_sequences sequences st) in
  (In r out <->
   In r sequences /\
   forall d, In d sequences -> session_at st d = session_at st r ->
             priority_at st r <= priority_at st d)
  /\ info (st' r) = info (st r)
  /\ (~ In r out -> st' r = st r).
Proof.
  intros st' out. split; [apply selected_In | split].
  - apply selected_info.
  - apply unselected_untouched.
Qed.

Lemma selected_iff_minimal_witness :
  ~ In 1 (snd (select_best_sequences (fst three_series) (snd three_series)))
  /\ fst (select_best_sequences (fst three_series) (snd three_series)) 1
     = snd three_series 1.
Proof.
  assert (H : ~ In 1 (snd (select_best_sequences (fst three_series)
                             (snd three_series))))
    by (vm_compute; intuition discriminate).
  split; [exact H |].
  exact (proj2 (proj2 (selected_iff_minimal (fst three_series)
                         (snd three_series) 1)) H).
Defined.

(** X9. Every session of the list is served: for every object of the list
    the selection holds an object of the same session key whose rank is at
    most its own.  A list of distinct objects gives a selection of distinct
    objects, no longer than the list. *)
Theorem every_session_is_served (sequences : list ref) (st : store) :
  let out := snd (select_best_sequences sequences st) in
  (forall r, In r sequences ->
             exists b, In b out /\ session_at st b = session_at st r /\
                       priority_at st b <= priority_at st r)
  /\ (NoDup sequences -> NoDup out /\ length out <= length sequences).
Proof.
  intros out. split.
  - intros r. apply session_served.
  - intros Hn. pose proof (selected_NoDup sequences st Hn) as Hd.
    split; [exact Hd |]. apply NoDup_incl_length; [exact Hd |].
    intros r Hr. now apply selected_In in Hr.
Qed.

Lemma every_session_is_served_witness :
  NoDup (snd (select_best_sequences (fst three_series) (snd three_series)))
  /\ length (snd (select_best_sequences (fst three_series)
                    (snd three_series)))
     <= length (fst three_series).
Proof.
  apply (proj2 (every_session_is_served (fst three_series)
                  (snd three_series))).
  apply seq_NoDup.
Defined.

(** ** Output names *)

Section Names.

Lemma parse_zero (s : str) :
  parse_decimal ("0"%char :: s) = parse_decimal s.
Proof.
  unfold parse_decimal. simpl.
  destruct (DecimalString.NilEmpty.uint_of_string (string_of_list_ascii s));
    reflexivity.
Qed.

Lemma parse_zeros (k : nat) (s : str) :
  parse_decimal (repeat "0"%char k ++ s) = parse_decimal s.
Proof.
  induction k as [|k IH]; simpl; [reflexivity |].
  now rewrite parse_zero.
Qed.

Lemma parse_decimal_of (n : nat) : parse_decimal (decimal n) = Some n.
Proof.
  unfold parse_decimal, decimal.
  rewrite string_of_list_ascii_of_string, DecimalString.NilEmpty.usu.
  simpl. now rewrite DecimalNat.Unsigned.of_to.
Qed.

(** [{n:02d}] can be read back. *)
Lemma parse_format_02d (n : nat) : parse_decimal (format_02d n) = Some n.
Proof.
  unfold format_02d. rewrite parse_zeros. apply parse_decimal_of.
Qed.

Lemma format_02d_inj (n m : nat) : format_02d n = format_02d m -> n = m.
Proof.
  intros H. apply (f_equal parse_decimal) in H.
  rewrite !parse_format_02d in H. congruence.
Qed.

(** Two strings cut at their first underscore. *)
Lemma split_key (a b x y : str) :
  no_underscore a -> no_underscore b ->
  a ++ "_"%char :: x = b ++ "_"%char :: y -> a = b /\ x = y.
Proof.
  intros Ha. revert b.
  induction Ha as [|c a Hc _ IH]; intros b Hb E.
  - destruct b as [|d b]; simpl in E.
    + injection E as ->. now split.
    + injection E as <- _. inversion Hb; subst. congruence.
  - destruct b as [|d b]; simpl in E.
    + injection E as -> _. congruence.
    + injection E as -> E. inversion Hb; subst.
      destruct (IH b) as [-> ->]; auto.
Qed.

Lemma nifti_filename_tail (d : SeqDict) (f : str) :
  nifti_filename d = Some f ->
  f = py "sub-" ++ subject_id (info d) ++ py "_ses-"
        ++ name_tail (session_date (info d)) (truthy_run (run d)).
Proof.
  unfold nifti_filename, name_tail, truthy_run.
  destruct (run d) as [[[|n]|]|]; intros [= <-];
    now rewrite <- ?app_assoc.
Qed.

Lemma name_tail_inj (s1 s2 : str) (r1 r2 : option nat) :
  no_underscore s1 -> no_underscore s2 ->
  name_tail s1 r1 = name_tail s2 r2 -> s1 = s2 /\ r1 = r2.
Proof.
  intros H1 H2 E. unfold name_tail in E.
  destruct r1 as [n|], r2 as [m|]; simpl in E;
    apply split_key in E as [-> E]; auto; split; auto;
    try discriminate E.
  injection E as E. apply app_inv_tail in E.
  now rewrite (format_02d_inj _ _ E).
Qed.

Lemma clean_no_underscore (k : str) :
  Forall (fun c => not_separator c = true) k -> no_underscore k.
Proof.
  apply Forall_impl. intros c H ->. discriminate H.
Qed.

End Names.

(** X10. The output name can be read back: two dictionaries whose subject
    and session key hold no underscore get the same name only if they have
    the same subject, the same session key and the same run (a run [None]
    and a run [0] both count as no run).  In particular [{run:02d}] is one
    to one. *)
Theorem nifti_filename_injective (d1 d2 : SeqDict) (f : str) :
  no_underscore (subject_id (info d1)) ->
  no_underscore (subject_id (info d2)) ->
  no_underscore (session_date (info d1)) ->
  no_underscore (session_date (info d2)) ->
  nifti_filename d1 = Some f -> nifti_filename d2 = Some f ->
  subject_id (info d1) = subject_id (info d2) /\
  session_date (info d1) = session_date (info d2) /\
  truthy_run (run d1) = truthy_run (run d2).
Proof.
  intros Hs1 Hs2 Hk1 Hk2 E1 E2.
  apply nifti_filename_tail in E1, E2. rewrite E1 in E2.
  apply app_inv_head in E2.
  change (py "_ses-") with ("_"%char :: py "ses-") in E2.
  apply split_key in E2 as [Hs E2]; auto.
  apply app_inv_head in E2.
  apply name_tail_inj in E2 as [Hk Hr]; auto.
Qed.

Lemma nifti_filename_injective_witness :
  subject_id (info (mkSeqDict
                      (mkCandidate (py "3000") (py "MPRAGE") (py "20110405")
                         (py "t") [] 1 3) (Some None)))
  = subject_id (info (mkSeqDict
                        (mkCandidate (py "3000") (py "FSPGR") (py "20110405")
                           (py "u") [] 2 9) (Some (Some 0))))
  /\ py "20110405" = py "20110405"
  /\ truthy_run (Some None) = truthy_run (Some (Some 0)).
Proof.
  apply (nifti_filename_injective
           (mkSeqDict
              (mkCandidate (py "3000") (py "MPRAGE") (py "20110405")
                 (py "t") [] 1 3) (Some None))
           (mkSeqDict
              (mkCandidate (py "3000") (py "FSPGR") (py "20110405")
                 (py "u") [] 2 9) (Some (Some 0)))
           (py "sub-3000_ses-20110405_T1w"));
    try (repeat constructor; discriminate); reflexivity.
Defined.

Section NamesOfSelection.

Lemma combine_seq_In {B : Type} (l : list B) (start : nat) (x : B)
    (v : option nat) :
  In (x, v) (List.combine l (map Some (seq start (length l)))) ->
  exists i, v = Some (start + i) /\ nth_error l i = Some x.
Proof.
  revert start. induction l as [|y l IH]; intros start H; simpl in H.
  - destruct H.
  - destruct H as [[= -> <-] | H].
    + exists 0. split; [f_equal; lia | reflexivity].
    + destruct (IH _ H) as (i & -> & Hn). exists (S i).
      split; [f_equal; lia | exact Hn].
Qed.

Lemma two_elements {B : Type} (l : list B) (a b : B) :
  In a l -> In b l -> a <> b -> 1 < length l.
Proof.
  destruct l as [|x [|y l]]; simpl; intros Ha Hb Hab; try lia;
    intuition congruence.
Qed.

(** Two objects written in one session get two different runs, both
    numbered from one. *)
Lemma session_writes_distinct {B : Type} (prio : B -> nat) (g : list B)
    (a b : B) (va vb : option nat) :
  In (a, va) (session_writes prio g) -> In (b, vb) (session_writes prio g) ->
  a <> b ->
  exists n m, va = Some (S n) /\ vb = Some (S m) /\ n <> m.
Proof.
  intros Ha Hb Hab. unfold session_writes, run_values in *.
  assert (Hl : 1 < length (best_of prio g)).
  { apply (two_elements _ a b); auto.
    - now apply in_combine_l in Ha.
    - now apply in_combine_l in Hb. }
  apply Nat.ltb_lt in Hl. rewrite Hl in Ha, Hb.
  apply combine_seq_In in Ha as (i & -> & Hi).
  apply combine_seq_In in Hb as (j & -> & Hj).
  exists i, j. repeat split. intros ->. congruence.
Qed.

Variable sequences : list ref.
Variable st : store.
Variable subject : str.

Hypothesis distinct : NoDup sequences.
Hypothesis same_subject :
  forall r, In r sequences -> subject_id (info (st r)) = subject.
Hypothesis clean_keys :
  forall r, In r sequences -> no_underscore (session_date (info (st r))).

Let st' := fst (select_best_sequences sequences st).
Let out := snd (select_best_sequences sequences st).

Lemma selected_run (r : ref) :
  In r out ->
  exists v, In (r, v) (all_writes st sequences) /\ run (st' r) = Some v.
Proof.
  unfold out, st'. rewrite select_best_sequences_eq. simpl. intros H.
  apply in_map_iff in H as ([r' v] & <- & H). simpl.
  exists v. split; [exact H |]. apply apply_writes_run; [| exact H].
  apply (writes_NoDup (session_at st)). now apply group_by_session_ok.
Qed.

Lemma selected_name (r : ref) :
  In r out ->
  exists v,
    In (r, v) (all_writes st sequences) /\
    nifti_filename (st' r)
    = Some (py "sub-" ++ subject ++ py "_ses-"
              ++ name_tail (session_date (info (st r)))
                   (truthy_run (Some v))).
Proof.
  intros H. destruct (selected_run r H) as (v & Hw & Hr).
  exists v. split; [exact Hw |].
  assert (Hs : In r sequences) by (now apply selected_In in H).
  destruct (nifti_filename (st' r)) as [f|] eqn:E.
  - apply nifti_filename_tail in E. rewrite E. unfold st'.
    rewrite selected_info. fold st'. now rewrite Hr, (same_subject r Hs).
  - unfold nifti_filename in E. rewrite Hr in E.
    destruct v as [[|n]|]; discriminate E.
Qed.

Lemma selected_names_differ (r1 r2 : ref) :
  In r1 out -> In r2 out -> r1 <> r2 ->
  nifti_filename (st' r1) <> nifti_filename (st' r2).
Proof.
  intros H1 H2 Hne E.
  destruct (selected_name r1 H1) as (v1 & Hw1 & E1).
  destruct (selected_name r2 H2) as (v2 & Hw2 & E2).
  rewrite E1, E2 in E.
  assert (E' : name_tail (session_date (info (st r1))) (truthy_run (Some v1))
               = name_tail (session_date (info (st r2)))
                   (truthy_run (Some v2))).
  { injection E as E. apply app_inv_head in E.
    now apply (app_inv_head (py "_ses-")) in E. }
  clear E. rename E' into E.
  assert (Hs1 : In r1 sequences) by (now apply selected_In in H1).
  assert (Hs2 : In r2 sequences) by (now apply selected_In in H2).
  apply name_tail_inj in E as [Hk Hv]; auto.
  pose proof (group_by_session_ok (session_at st) sequences distinct) as Hok.
  pose proof (writes_in_session (session_at st) (priority_at st)
                (session_at st r1) _ Hok) as HW.
  fold (all_writes st sequences) in HW.
  assert (F1 : In (r1, v1)
                 (filter (fun w => in_session (session_at st)
                                     (session_at st r1) (fst w))
                    (all_writes st sequences))).
  { apply filter_In. split; [exact Hw1 |]. apply str_eqb_refl. }
  assert (F2 : In (r2, v2)
                 (filter (fun w => in_session (session_at st)
                                     (session_at st r1) (fst w))
                    (all_writes st sequences))).
  { apply filter_In. split; [exact Hw2 |]. unfold in_session. simpl.
    apply str_eqb_eq. unfold session_at. now symmetry. }
  rewrite HW in F1, F2.
  destruct (session_writes_distinct _ _ _ _ _ _ F1 F2 Hne)
    as (n & m & -> & -> & Hnm).
  simpl in Hv. congruence.
Qed.

End NamesOfSelection.

(** X11. No two series selected for a subject are written to the same
    file: from discovery through selection to the output name, every
    selected dictionary has a name, and different selected dictionaries
    have different names. *)
Theorem selected_outputs_never_collide (dicom_root : list (str * node))
    (subject : str) (found : list Candidate) :
  find_t1_sequences dicom_root subject = Some found ->
  let refs := fst (discovered found) in
  let st := snd (discovered found) in
  let st' := fst (select_best_sequences refs st) in
  let out := snd (select_best_sequences refs st) in
  (forall r, In r out -> exists f, nifti_filename (st' r) = Some f)
  /\ (forall r1 r2, In r1 out -> In r2 out -> r1 <> r2 ->
                    nifti_filename (st' r1) <> nifti_filename (st' r2)).
Proof.
  intros Hf refs st st' out.
  assert (Hin : forall r, In r refs -> In (info (st r)) found).
  { intros r Hr. subst refs st. simpl in *. apply in_seq in Hr.
    apply nth_In. lia. }
  assert (Hsub : forall r, In r refs -> subject_id (info (st r)) = subject).
  { intros r Hr.
    now destruct (find_t1_sequences_sound _ _ _ _ Hf (Hin r Hr)). }
  assert (Hkey : forall r, In r refs ->
                           no_underscore (session_date (info (st r)))).
  { intros r Hr.
    destruct (find_t1_sequences_sound _ _ _ _ Hf (Hin r Hr))
      as (_ & _ & _ & _ & -> & _).
    apply clean_no_underscore, extract_clean. }
  assert (Hd : NoDup refs) by apply seq_NoDup.
  split.
  - intros r Hr.
    destruct (selected_name refs st subject Hd Hsub r Hr) as (v & _ & E).
    eexists. exact E.
  - intros r1 r2. now apply (selected_names_differ refs st subject).
Qed.

Lemma selected_outputs_never_collide_witness :
  nifti_filename (fst (select_best_sequences (fst three_series)
                         (snd three_series)) 0)
  <> nifti_filename (fst (select_best_sequences (fst three_series)
                            (snd three_series)) 2).
Proof.
  refine (proj2 (selected_outputs_never_collide three_series_tree (py "3000")
                   _ eq_refl) 0 2 _ _ _).
  - vm_compute. auto.
  - vm_compute. auto.
  - discriminate.
Defined.

(** ** The statistics of [main] *)

Section Statistics.

Variable World : Type.
Variable run_dcm2niix :
  World -> list str -> str -> list str -> option (World * bool).

Lemma convert_all_counts (subject : str) (selected : list ref) (st : store)
    (w w' : World)
    (stats stats' : Stats) :
  convert_all World run_dcm2niix subject selected st w stats
  = Some (w', stats') ->
  total_subjects stats' = total_subjects stats /\
  subjects_with_dicom stats' = subjects_with_dicom stats /\
  subjects_without_dicom stats' = subjects_without_dicom stats /\
  total_sequences stats' = total_sequences stats /\
  total_sessions stats' = total_sessions stats /\
  successful_conversions stats' + failed_conversions stats'
  = successful_conversions stats + failed_conversions stats
    + length selected.
Proof.
  revert w stats. induction selected as [|r l IH]; intros w stats; simpl.
  - intros [= <- <-]. repeat split; lia.
  - destruct (convert_to_nifti World run_dcm2niix w (st r) _)
      as [[w1 success]|]; [| discriminate].
    intros H. apply IH in H. destruct success; simpl in H;
      repeat split; try tauto; lia.
Qed.

Lemma nodup_length_le {B : Type} (dec : forall x y : B, {x = y} + {x <> y})
    (l : list B) :
  length (nodup dec l) <= length l.
Proof.
  induction l as [|x l IH]; simpl; [lia |].
  destruct (in_dec dec x l); simpl; lia.
Qed.

Lemma unique_sessions_le (selected : list ref) (st : store) :
  unique_sessions selected st <= length selected.
Proof.
  unfold unique_sessions.
  etransitivity; [apply nodup_length_le |]. now rewrite length_map.
Qed.

Lemma unique_sessions_pos (selected : list ref) (st : store) :
  selected <> [] -> 0 < unique_sessions selected st.
Proof.
  unfold unique_sessions. destruct selected as [|r l]; [congruence |].
  intros _.
  assert (H : In (session_date (info (st r)))
                (nodup (list_eq_dec ascii_dec)
                   (map (fun seq => session_date (info (st seq)))
                      (r :: l))))
    by (apply nodup_In; now left).
  destruct (nodup _ _); [destruct H | simpl; lia].
Qed.

Lemma process_subject_ok (dicom_root : list (str * node)) (subject : str)
    (w w' : World) (stats stats' : Stats) (done : nat) :
  process_subject World run_dcm2niix dicom_root subject w stats
  = Some (w', stats') ->
  stats_ok done stats ->
  stats_ok (S done) stats' /\ total_subjects stats' = total_subjects stats.
Proof.
  unfold process_subject, stats_ok.
  destruct (find_t1_sequences dicom_root subject) as [[|c found]|];
    [| | discriminate].
  - intros [= <- <-]. simpl. intros (H1 & H2 & H3 & H4).
    repeat split; lia.
  - destruct (discovered (c :: found)) as [refs st] eqn:Ed.
    destruct (select_best_sequences refs st) as [st' selected] eqn:Es.
    intros H (H1 & H2 & H3 & H4).
    apply convert_all_counts in H. simpl in H.
    destruct H as (T & W1 & W2 & S1 & S2 & C).
    pose proof (unique_sessions_le selected st') as Hle.
    assert (Hpos : 0 < unique_sessions selected st').
    { apply unique_sessions_pos. intros ->.
      assert (Hr : In 0 refs).
      { injection Ed as <- _. simpl. now left. }
      destruct (session_served refs st 0 Hr) as (b & Hb & _).
      rewrite Es in Hb. destruct Hb. }
    repeat split; lia.
Qed.

Lemma process_all_ok (dicom_root : list (str * node)) (subjects : list str)
    (w w' : World) (stats stats' : Stats) (done : nat) :
  process_all World run_dcm2niix dicom_root subjects w stats
  = Some (w', stats') ->
  stats_ok done stats ->
  stats_ok (done + length subjects) stats' /\
  total_subjects stats' = total_subjects stats.
Proof.
  revert w stats done.
  induction subjects as [|s l IH]; intros w stats done; simpl.
  - intros [= <- <-] H. now rewrite Nat.add_0_r.
  - destruct (process_subject World run_dcm2niix dicom_root s w stats)
      as [[w1 stats1]|] eqn:E; [| discriminate].
    intros H Hok.
    destruct (process_subject_ok _ _ _ _ _ _ done E Hok) as [Hok1 T1].
    destruct (IH _ _ _ H Hok1) as [Hok2 T2].
    split; [| congruence]. now replace (done + S (length l))
                             with (S done + length l) by lia.
Qed.

End Statistics.

(** X12. When the loop of [main] ends, its statistics add up: every subject
    is counted once, with or without DICOM data; every selected sequence is
    counted once, as a success or as a failure; there are as many sessions
    as sequences at most, and one session at least for every subject with
    data. *)
Theorem main_statistics_add_up (World : Type)
    (run_dcm2niix :
       World -> list str -> str -> list str -> option (World * bool))
    (dicom_root : list (str * node)) (subjects : list str)
    (w w' : World) (stats : Stats) :
  main_loop World run_dcm2niix dicom_root subjects w = Some (w', stats) ->
  total_subjects stats = length subjects /\
  subjects_with_dicom stats + subjects_without_dicom stats
  = total_subjects stats /\
  successful_conversions stats + failed_conversions stats
  = total_sequences stats /\
  total_sessions stats <= total_sequences stats /\
  subjects_with_dicom stats <= total_sessions stats.
Proof.
  unfold main_loop. intros H.
  apply (process_all_ok _ _ _ _ _ _ _ _ 0) in H.
  - destruct H as [(H1 & H2 & H3 & H4) T]. simpl in *.
    repeat split; try tauto; lia.
  - unfold stats_ok. simpl. repeat split; lia.
Qed.

Lemma main_statistics_add_up_witness :
  total_subjects (mkStats 2 1 1 2 2 0 1) = 2 /\
  subjects_with_dicom (mkStats 2 1 1 2 2 0 1)
  + subjects_without_dicom (mkStats 2 1 1 2 2 0 1)
  = total_subjects (mkStats 2 1 1 2 2 0 1) /\
  successful_conversions (mkStats 2 1 1 2 2 0 1)
  + failed_conversions (mkStats 2 1 1 2 2 0 1)
  = total_sequences (mkStats 2 1 1 2 2 0 1) /\
  total_sessions (mkStats 2 1 1 2 2 0 1)
  <= total_sequences (mkStats 2 1 1 2 2 0 1) /\
  subjects_with_dicom (mkStats 2 1 1 2 2 0 1)
  <= total_sessions (mkStats 2 1 1 2 2 0 1).
Proof.
  apply (main_statistics_add_up unit (fun w _ _ _ => Some (w, true))
           three_series_tree [py "3000"; py "4000"] tt tt).
  reflexivity.
Defined.

(** ** The QC gate, again *)

Section GateMore.

Lemma qc_gate_numeric (thresholds : list (str * Q)) (df : DataFrame) :
  numeric_qc thresholds df ->
  qc_gate thresholds df
  = Done (mkDataFrame (columns df)
            (filter (passes thresholds (columns df)) (rows df))).
Proof.
  intros Hn.
  destruct (apply_qc_numeric (columns df) thresholds (rows df)) as [kept E];
    [exact Hn |].
  unfold qc_gate. rewrite E. now rewrite (apply_qc_filter _ _ _ _ E).
Qed.

Lemma passes_perm (t1 t2 : list (str * Q)) (cols : list str) (r : row) :
  Permutation t1 t2 -> passes t1 cols r = passes t2 cols r.
Proof.
  unfold passes. induction 1 as [| x l l' _ IH | x y l | l l' l'' _ IH1 _ IH2];
    simpl.
  - reflexivity.
  - now rewrite IH.
  - now rewrite !andb_assoc,
      (andb_comm (if has_column (fst y) cols then _ else _)).
  - congruence.
Qed.

Lemma passes_numeric (thresholds : list (str * Q)) (cols : list str)
    (r : row) (ct : str * Q) (s : str) :
  passes thresholds cols r = true -> In ct thresholds ->
  has_column (fst ct) cols = true -> get cols r (fst ct) <> Text s.
Proof.
  unfold passes. rewrite forallb_forall. intros Hp Hct Hc E.
  specialize (Hp ct Hct). rewrite Hc in Hp. unfold at_least in Hp.
  now rewrite E in Hp.
Qed.

Lemma filter_idem {A : Type} (f : A -> bool) (l : list A) :
  filter f (filter f l) = filter f l.
Proof.
  induction l as [|x l IH]; simpl; [reflexivity |].
  destruct (f x) eqn:E; simpl; [now rewrite E, IH | exact IH].
Qed.

End GateMore.

(** X13. The order of the QC filters does not matter as long as no
    configured column holds a text: any reordering of the thresholds gives
    the same table.  With a text cell it can matter: one order raises where
    the other removes the row first. *)
Theorem qc_filters_commute (t1 t2 : list (str * Q)) (df : DataFrame) :
  (Permutation t1 t2 -> numeric_qc t1 df ->
   qc_gate t1 df = qc_gate t2 df /\
   exists out, qc_gate t1 df = Done out)
  /\ qc_gate [(py "qc_a", 1 # 2); (py "qc_b", 1 # 2)] text_in_removed_row
     = Raised
  /\ qc_gate [(py "qc_b", 1 # 2); (py "qc_a", 1 # 2)] text_in_removed_row
     = Done (mkDataFrame (columns text_in_removed_row) []).
Proof.
  split; [| split; reflexivity].
  intros Hp Hn.
  assert (Hn2 : numeric_qc t2 df).
  { intros ct r s Hct. apply Hn. apply Permutation_sym in Hp.
    now apply (Permutation_in _ Hp). }
  rewrite (qc_gate_numeric _ _ Hn), (qc_gate_numeric _ _ Hn2).
  split; [| eexists; reflexivity].
  do 2 f_equal. apply filter_ext. intros r. now apply passes_perm.
Qed.

Lemma qc_filters_commute_witness :
  qc_gate qc_thresholds three_qc_table
  = qc_gate (rev qc_thresholds) three_qc_table
  /\ exists out, qc_gate qc_thresholds three_qc_table = Done out.
Proof.
  apply (proj1 (qc_filters_commute qc_thresholds (rev qc_thresholds)
                  three_qc_table)).
  - apply Permutation_rev.
  - intros ct r s Hct _ Hr. simpl in Hct, Hr.
    destruct Hct as [<- | [<- | [<- | []]]];
      destruct Hr as [<- | [<- | [<- | []]]]; discriminate.
Defined.

(** X14. The QC gate is idempotent: a table that came out of the gate goes
    through it again unchanged, and without raising. *)
Theorem qc_gate_idempotent (thresholds : list (str * Q))
    (df out : DataFrame) :
  qc_gate thresholds df = Done out -> qc_gate thresholds out = Done out.
Proof.
  intros H. apply qc_gate_done in H as [Hc Hr].
  rewrite qc_gate_numeric.
  - destruct out as [cols rs]. simpl in *. subst cols rs.
    now rewrite filter_idem.
  - intros ct r s Hct Hcol Hin. rewrite Hc in *. rewrite Hr in Hin.
    apply filter_In in Hin as [_ Hp].
    now apply (passes_numeric thresholds).
Qed.

Lemma qc_gate_idempotent_witness :
  qc_gate qc_thresholds
    (mkDataFrame (columns three_qc_table)
       [[Text (py "s1"); Num (7 # 8); Num (13 # 16); Num (3 # 4)]])
  = Done (mkDataFrame (columns three_qc_table)
            [[Text (py "s1"); Num (7 # 8); Num (13 # 16); Num (3 # 4)]]).
Proof.
  apply (qc_gate_idempotent qc_thresholds three_qc_table). reflexivity.
Defined.

(** ** The union of the frames *)

Section Union.

Lemma has_column_In (c : str) (cols : list str) :
  has_column c cols = true <-> In c cols.
Proof.
  unfold has_column. rewrite existsb_exists. split.
  - intros (x & Hx & E). apply str_eqb_eq in E. now subst.
  - intros H. exists c. split; [exact H | apply str_eqb_refl].
Qed.

Lemma add_columns_In (seen cols : list str) (c : str) :
  In c (add_columns seen cols) <-> In c seen \/ In c cols.
Proof.
  unfold add_columns. revert seen.
  induction cols as [|x cols IH]; intros seen; simpl.
  - tauto.
  - rewrite IH. destruct (has_column x seen) eqn:E.
    + apply has_column_In in E. split; [tauto |].
      intros [H | [<- | H]]; auto.
    + rewrite in_app_iff. simpl. tauto.
Qed.

Lemma add_columns_NoDup (seen cols : list str) :
  NoDup seen -> NoDup (add_columns seen cols).
Proof.
  unfold add_columns. revert seen.
  induction cols as [|x cols IH]; intros seen H; simpl; [exact H |].
  apply IH. destruct (has_column x seen) eqn:E; [exact H |].
  apply NoDup_app; [exact H | repeat constructor; intros [] |].
  intros a Ha [<- | []].
  apply has_column_In in Ha. congruence.
Qed.

Lemma fold_columns_In (frames : list DataFrame) (seen : list str)
    (c : str) :
  In c (fold_left (fun s df => add_columns s (columns df)) frames seen)
  <-> In c seen \/ exists df, In df frames /\ In c (columns df).
Proof.
  revert seen. induction frames as [|df l IH]; intros seen; simpl.
  - split; [tauto | intros [H | (df & [] & _)]; exact H].
  - rewrite IH, add_columns_In. split.
    + intros [[H | H] | (d & Hd & Hc)]; auto.
      * right. exists df. auto.
      * right. exists d. auto.
    + intros [H | (d & [<- | Hd] & Hc)]; auto.
      right. exists d. auto.
Qed.

Lemma fold_columns_NoDup (frames : list DataFrame) (seen : list str) :
  NoDup seen ->
  NoDup (fold_left (fun s df => add_columns s (columns df)) frames seen).
Proof.
  revert seen. induction frames as [|df l IH]; intros seen H; simpl;
    [exact H |]. now apply IH, add_columns_NoDup.
Qed.

Lemma position_found (c : str) (cols : list str) (i : nat) :
  position c cols = Some i -> nth_error cols i = Some c.
Proof.
  revert i. induction cols as [|x cols IH]; intros i; simpl;
    [discriminate |].
  destruct (str_eqb x c) eqn:E.
  - intros [= <-]. apply str_eqb_eq in E. now subst.
  - destruct (position c cols) as [j|]; [| discriminate].
    intros [= <-]. simpl. now apply IH.
Qed.

Lemma position_none (c : str) (cols : list str) :
  position c cols = None <-> ~ In c cols.
Proof.
  induction cols as [|x cols IH]; simpl; [tauto |].
  destruct (str_eqb x c) eqn:E.
  - apply str_eqb_eq in E. split; [discriminate | tauto].
  - apply str_eqb_neq in E. destruct (position c cols); simpl.
    + split; [discriminate |]. intros H. exfalso.
      destruct IH as [_ IH]. assert (Hc : ~ In c cols) by tauto.
      specialize (IH Hc). discriminate.
    + split; [| reflexivity]. intros _ [H | H]; [congruence |].
      now apply IH.
Qed.

(** Reading a laid-out row back: the cell of the frame where the frame has
    the column, the missing value elsewhere. *)
Lemma get_reindexed (cols : list str) (df : DataFrame) (r : row) (c : str) :
  get cols (reindex_row cols df r) c
  = if has_column c cols then get (columns df) r c else NaN.
Proof.
  unfold get at 1, reindex_row.
  destruct (position c cols) as [i|] eqn:E.
  - pose proof (position_found _ _ _ E) as Hn.
    assert (Hc : has_column c cols = true)
      by (apply has_column_In; eapply nth_error_In; eassumption).
    rewrite Hc.
    rewrite (nth_indep _ NaN (get (columns df) r c)).
    + rewrite map_nth. f_equal. now apply nth_error_nth.
    + rewrite length_map. apply nth_error_Some. congruence.
  - apply position_none in E.
    destruct (has_column c cols) eqn:Hc; [| reflexivity].
    apply has_column_In in Hc. contradiction.
Qed.

End Union.

(** X15. [pd.concat] as the script uses it: the union has every column of
    every frame once; it has the rows of the frames in turn; and a row
    reads in the union what it read in its frame, the missing value in the
    columns its frame does not have. *)
Theorem concat_keeps_cells (frames : list DataFrame) :
  let all := concat frames in
  NoDup (columns all)
  /\ (forall c, In c (columns all) <->
                exists df, In df frames /\ In c (columns df))
  /\ rows all
     = flat_map (fun df => map (reindex_row (columns all) df) (rows df))
         frames
  /\ (forall df r c,
         In df frames ->
         get (columns all) (reindex_row (columns all) df r) c
         = get (columns df) r c).
Proof.
  intros all. subst all. unfold concat, union_columns. simpl.
  split; [apply fold_columns_NoDup; constructor | split; [| split]].
  - intros c. rewrite fold_columns_In. simpl. tauto.
  - reflexivity.
  - intros df r c Hdf. rewrite get_reindexed.
    destruct (has_column c _) eqn:E; [reflexivity |].
    unfold get. destruct (position c (columns df)) as [i|] eqn:P;
      [| reflexivity].
    exfalso. apply position_found, nth_error_In in P.
    assert (H : has_column c
                  (fold_left (fun s d => add_columns s (columns d))
                     frames []) = true).
    { apply has_column_In, fold_columns_In. right. now exists df. }
    congruence.
Qed.

Lemma concat_keeps_cells_witness :
  get (columns (concat [one_subject; two_qc_table]))
    (reindex_row (columns (concat [one_subject; two_qc_table]))
       one_subject [Text (py "s1"); Text (py "IXI")])
    (py "qc_general white matter")
  = get (columns one_subject) [Text (py "s1"); Text (py "IXI")]
      (py "qc_general white matter").
Proof.
  apply (proj2 (proj2 (proj2 (concat_keeps_cells
                                [one_subject; two_qc_table])))).
  now left.
Defined.

(** ** Dataset labels *)

Section Labels.

Lemma prefix_hides_nothing (w s : str) :
  In w [py "OASIS"; py "OAS"; py "IXI"; py "PPMI"; py "SRPBS"; py "SRPB"] ->
  contains w (py "sub-" ++ s) = contains w s.
Proof.
  intros H. simpl in H.
  repeat (destruct H as [<- | H];
          [cbn [py list_ascii_of_string app];
           rewrite 4 contains_unfold; reflexivity |]).
  destruct H.
Qed.

End Labels.

(** X16. [infer_dataset] gives an identifier that starts with [sub-] one of
    the labels OASIS3, IXI, PPMI, SRPBS, UNKNOWN, and any other identifier
    one of ADNI, OASIS2, OASIS1, UNKNOWN.  So the BIDS prefix changes the
    label: an identifier that holds [_S_] and none of OAS, IXI, PPMI, SRPB
    is ADNI without the prefix and UNKNOWN with it. *)
Theorem infer_dataset_labels (s : str) :
  (startswith (py "sub-") s = true ->
   In (infer_dataset s)
     [py "OASIS3"; py "IXI"; py "PPMI"; py "SRPBS"; py "UNKNOWN"])
  /\ (startswith (py "sub-") s = false ->
      In (infer_dataset s)
        [py "ADNI"; py "OASIS2"; py "OASIS1"; py "UNKNOWN"])
  /\ (startswith (py "sub-") s = false ->
      contains (py "_S_") s = true ->
      (forall w, In w [py "OAS"; py "IXI"; py "PPMI"; py "SRPB"] ->
                 contains w s = false) ->
      infer_dataset s = py "ADNI" /\
      infer_dataset (py "sub-" ++ s) = py "UNKNOWN").
Proof.
  split; [| split].
  - intros H. unfold infer_dataset. rewrite H.
    repeat match goal with
           | |- context [if ?b then _ else _] => destruct b
           end; simpl; auto 10.
  - intros H. unfold infer_dataset. rewrite H.
    repeat match goal with
           | |- context [if ?b then _ else _] => destruct b
           end; simpl; auto 10.
  - intros Hp Hs Hw. split.
    + unfold infer_dataset. now rewrite Hp, Hs.
    + unfold infer_dataset. rewrite startswith_app.
      rewrite !prefix_hides_nothing by (simpl; auto 10).
      assert (Ho : contains (py "OASIS") s = false).
      { apply contains_false_iff. intros Ho.
        assert (Hoas : contains (py "OAS") s = false)
          by (apply Hw; simpl; auto).
        apply contains_false_iff in Hoas. apply Hoas.
        apply occurs_trans with (py "OASIS"); [| exact Ho].
        apply contains_iff. reflexivity. }
      assert (Hsr : contains (py "SRPBS") s = false).
      { apply contains_false_iff. intros Hc.
        assert (Hb : contains (py "SRPB") s = false)
          by (apply Hw; simpl; auto).
        apply contains_false_iff in Hb. apply Hb.
        apply occurs_trans with (py "SRPBS"); [| exact Hc].
        apply contains_iff. reflexivity. }
      rewrite Ho, Hsr, !Hw by (simpl; auto). reflexivity.
Qed.

Lemma infer_dataset_labels_witness :
  infer_dataset (py "002_S_0295") = py "ADNI" /\
  infer_dataset (py "sub-" ++ py "002_S_0295") = py "UNKNOWN".
Proof.
  apply (proj2 (proj2 (infer_dataset_labels (py "002_S_0295")))).
  - reflexivity.
  - reflexivity.
  - intros w Hw. simpl in Hw.
    repeat (destruct Hw as [<- | Hw]; [reflexivity |]). destruct Hw.
Defined.

(** ** How [combine] ends *)

Section Endings.




End Endings.



(** ** Match counts *)

Section MatchCounts.

Lemma list_sum_flags {A : Type} (f : A -> nat) (l : list A) :
  (forall x, In x l -> f x <= 1) ->
  list_sum (map f l) = length (filter (fun x => 0 <? f x) l).
Proof.
  induction l as [|x l IH]; simpl; intros H; [reflexivity |].
  rewrite IH by (intros y Hy; apply H; now right).
  specialize (H x (or_introl eq_refl)).
  destruct (f x) as [|[|n]]; simpl; lia.
Qed.

Lemma filter_pos_exists {A : Type} (p : A -> bool) (l : list A) :
  (0 <? length (filter p l)) = existsb p l.
Proof.
  induction l as [|x l IH]; simpl; [reflexivity |].
  destruct (p x); simpl; [reflexivity | exact IH].
Qed.

Lemma merge_unique_count (left right : DataFrame) (left_on right_on : str) :
  distinct_keys
    (map (fun r => get (columns right) r right_on) (rows right)) = true ->
  length (rows (merge left right left_on right_on))
  = length
      (filter (fun l =>
                 existsb (fun r =>
                            key_eqb (get (columns left) l left_on)
                                    (get (columns right) r right_on))
                   (rows right))
         (rows left)).
Proof.
  intros H. rewrite merge_length, list_sum_flags.
  - f_equal. apply filter_ext. intros l. apply filter_pos_exists.
  - intros l _.
    rewrite (filter_map_length
               (key_eqb (get (columns left) l left_on))
               (fun r => get (columns right) r right_on)).
    now apply distinct_keys_once.
Qed.

End MatchCounts.

(** X18. When the volumes table of a dataset has one row at most for an
    identifier, the match count printed for the dataset is the number of
    its selected subjects that have a volumes row. *)
Theorem match_count_is_subjects_with_volumes (selected_df : DataFrame)
    (subject_col dataset : str) (vol_df merged_df : DataFrame) :
  match_dataset selected_df subject_col dataset vol_df = Some merged_df ->
  unique_ids vol_df = true ->
  exists vol_subject_col,
    hd_error (filter (fun col => contains (py "subject") (lower col))
                (columns vol_df)) = Some vol_subject_col /\
    length (rows merged_df)
    = length
        (filter
           (fun r =>
              cell_is_text dataset
                (get (columns selected_df) r (py "dataset"))
              && existsb
                   (fun v =>
                      key_eqb (get (columns selected_df) r subject_col)
                        (get (columns vol_df) v vol_subject_col))
                   (rows vol_df))
           (rows selected_df)).
Proof.
  unfold match_dataset, unique_ids. cbn [rows].
  destruct (filter _ (rows selected_df)) as [|r0 rs] eqn:E1; [discriminate |].
  destruct (filter _ (columns vol_df)) as [|c cs] eqn:E2; [discriminate |].
  intros [= <-] Hu. exists c. split; [reflexivity |].
  rewrite merge_unique_count by exact Hu. cbn [rows columns].
  rewrite <- E1, filter_filter. reflexivity.
Qed.

Lemma match_count_is_subjects_with_volumes_witness :
  exists vol_subject_col,
    hd_error (filter (fun col => contains (py "subject") (lower col))
                [py "subject_id"; py "qc_general grey matter"])
    = Some vol_subject_col /\
    length (rows (merge one_subject
                    (mkDataFrame [py "subject_id"; py "qc_general grey matter"]
                       [[Text (py "s1"); Num (7 # 8)];
                        [Text (py "s7"); Num (7 # 8)]])
                    (py "subject_id") (py "subject_id")))
    = length
        (filter
           (fun r =>
              cell_is_text (py "IXI")
                (get (columns one_subject) r (py "dataset"))
              && existsb
                   (fun v =>
                      key_eqb (get (columns one_subject) r (py "subject_id"))
                        (get [py "subject_id"; py "qc_general grey matter"]
                           v vol_subject_col))
                   [[Text (py "s1"); Num (7 # 8)];
                    [Text (py "s7"); Num (7 # 8)]])
           (rows one_subject)).
Proof.
  apply (match_count_is_subjects_with_volumes one_subject (py "subject_id")
           (py "IXI")
           (mkDataFrame [py "subject_id"; py "qc_general grey matter"]
              [[Text (py "s1"); Num (7 # 8)]; [Text (py "s7"); Num (7 # 8)]]));
    reflexivity.
Defined.

(** ** The columns kept *)

Section Kept.

Variables combined_df filtered_df : DataFrame.

Lemma final_cols_In (c : str) :
  In c (final_cols combined_df filtered_df) <->
  In c (columns filtered_df) /\
  (In c demo_cols \/ In c volume_cols_of_interest
   \/ (startswith (py "qc_") c = true /\ In c (columns combined_df))).
Proof.
  unfold final_cols. rewrite !in_app_iff, !filter_In, !has_column_In.
  tauto.
Qed.

Lemma Subject_not_final :
  ~ In (py "Subject") (final_cols combined_df filtered_df).
Proof.
  intros H. apply final_cols_In in H as [_ [H | [H | [H _]]]];
    try discriminate H;
    simpl in H; repeat (destruct H as [H | H]; [discriminate H |]);
    destruct H.
Qed.

End Kept.

(** X19. Step 6 after the quality gate keeps every row that passed.  It
    keeps a column exactly when the combined table has it and it is one of
    the six demographic columns, one of the ten volume columns, or named
    [qc_...]; so it asks for no column the table lacks, and a subject
    column named [Subject] is dropped.  Every kept cell reads as before. *)
Theorem final_df_keeps (thresholds : list (str * Q))
    (combined_df filtered_df : DataFrame) :
  qc_gate thresholds combined_df = Done filtered_df ->
  length (rows (final_df combined_df filtered_df))
  = length (rows filtered_df)
  /\ (forall c,
         In c (columns (final_df combined_df filtered_df)) <->
         In c (columns combined_df) /\
         (In c demo_cols \/ In c volume_cols_of_interest
          \/ startswith (py "qc_") c = true))
  /\ ~ In (py "Subject") (columns (final_df combined_df filtered_df))
  /\ rows (final_df combined_df filtered_df)
     = map (reindex_row (columns (final_df combined_df filtered_df))
              filtered_df)
         (rows filtered_df)
  /\ (forall r c,
         In c (columns (final_df combined_df filtered_df)) ->
         get (columns (final_df combined_df filtered_df))
           (reindex_row (columns (final_df combined_df filtered_df))
              filtered_df r) c
         = get (columns filtered_df) r c).
Proof.
  intros Hg. apply qc_gate_done in Hg as [Hc _].
  unfold final_df. cbn [rows columns].
  split; [apply reindex_length | split; [| split;
    [apply Subject_not_final | split; [reflexivity |]]]].
  - intros c. rewrite final_cols_In, Hc. tauto.
  - intros r c Hin. rewrite get_reindexed.
    apply has_column_In in Hin. now rewrite Hin.
Qed.

Lemma final_df_keeps_witness :
  length (rows (final_df three_qc_table
                  (mkDataFrame (columns three_qc_table)
                     [[Text (py "s1"); Num (7 # 8); Num (13 # 16);
                       Num (3 # 4)]])))
  = 1.
Proof.
  apply (proj1 (final_df_keeps qc_thresholds three_qc_table
                  (mkDataFrame (columns three_qc_table)
                     [[Text (py "s1"); Num (7 # 8); Num (13 # 16);
                       Num (3 # 4)]])
                  eq_refl)).
Defined.

(** ** The left join of the matching script *)

Section LeftJoin.

Variables repr_subjects repr_volumes : Q -> str.

Lemma joined_both (l : row) (found : list (str * row)) :
  filter is_both (map (fun r => (l, Some (snd r))) found)
  = map (fun r => (l, Some (snd r))) found
  /\ filter (fun m => negb (is_both m))
       (map (fun r => (l, Some (snd r))) found) = [].
Proof.
  induction found as [|a found [IH1 IH2]]; simpl; [split; reflexivity |].
  rewrite IH1. split; [reflexivity | exact IH2].
Qed.

Lemma left_merge_counts (subjects volumes : list (str * row)) :
  length (filter is_both (left_merge subjects volumes))
  = list_sum
      (map (fun l =>
              length (filter (fun r => str_eqb (fst l) (fst r)) volumes))
         subjects)
  /\ length (filter (fun m => negb (is_both m))
               (left_merge subjects volumes))
     = length
         (filter (fun l =>
                    negb (existsb (fun r => str_eqb (fst l) (fst r))
                            volumes))
            subjects).
Proof.
  unfold left_merge.
  match goal with |- context [flat_map ?g _] => set (f := g) end.
  induction subjects as [|l subjects [IH1 IH2]].
  - split; reflexivity.
  - change (flat_map f (l :: subjects)) with (f l ++ flat_map f subjects).
    cbn [map list_sum filter].
    rewrite !filter_app, !length_app, IH1, IH2.
    rewrite <- (filter_pos_exists (fun r => str_eqb (fst l) (fst r)) volumes).
    unfold f at 1 2.
    destruct (filter (fun r => str_eqb (fst l) (fst r)) volumes)
      as [|m ms] eqn:E.
    + simpl. split; reflexivity.
    + destruct (joined_both (snd l) (m :: ms)) as [B N].
      rewrite B, N, length_map. simpl. split; lia.
Qed.

Lemma count_once (ids : list str) (k : str) :
  NoDup ids -> length (filter (str_eqb k) ids) <= 1.
Proof.
  induction 1 as [|x l Hx _ IH]; simpl; [lia |].
  destruct (str_eqb k x) eqn:E; [| exact IH].
  apply str_eqb_eq in E. subst x. rewrite filter_none; [simpl; lia |].
  intros y Hy. apply str_eqb_neq. intros ->. contradiction.
Qed.

End LeftJoin.

(** X20. The report of the matching script for one dataset: the merged
    rows are matched or missing, never both, and there are at least as many
    as subjects; the missing count is the number of subjects with no
    volumes row of their normalized identifier; and when the normalized
    identifiers of the volumes table are distinct, every subject is counted
    exactly once, so that matched plus missing is the number of
    subjects. *)
Theorem match_report_adds_up (repr_subjects repr_volumes : Q -> str)
    (dataset_subjects vol_df : DataFrame) (report : Report) :
  match_volumes repr_subjects repr_volumes dataset_subjects vol_df
  = Some report ->
  n_matched report + n_missing report = length (merged report)
  /\ length (matched report) = n_matched report
  /\ n_subjects report <= length (merged report)
  /\ exists subjects volumes,
       with_normalized repr_subjects dataset_subjects = Some subjects
       /\ with_normalized repr_volumes vol_df = Some volumes
       /\ n_missing report
          = length
              (filter (fun l =>
                         negb (existsb (fun r => str_eqb (fst l) (fst r))
                                 volumes))
                 subjects)
       /\ (NoDup (map fst volumes) ->
           n_matched report + n_missing report = n_subjects report).
Proof.
  unfold match_volumes.
  destruct (with_normalized repr_subjects dataset_subjects)
    as [subjects|] eqn:EL; [| discriminate].
  destruct (with_normalized repr_volumes vol_df) as [volumes|] eqn:ER;
    [| discriminate].
  destruct (join_refused _ _); [discriminate |].
  intros [= <-]. cbn [n_matched n_missing merged matched n_subjects].
  destruct (left_merge_counts subjects volumes) as [Hb Hn].
  assert (Hlen : length subjects = length (rows dataset_subjects)).
  { unfold with_normalized in EL.
    destruct (has_column _ _); [| discriminate].
    injection EL as <-. apply length_map. }
  split; [| split; [reflexivity | split]].
  - rewrite <- (filter_length is_both (left_merge subjects volumes)).
    reflexivity.
  - rewrite <- Hlen,
      <- (filter_length is_both (left_merge subjects volumes)), Hb, Hn.
    clear. induction subjects as [|l subjects IH]; simpl; [lia |].
    rewrite <- (filter_pos_exists (fun r => str_eqb (fst l) (fst r))
                  volumes).
    destruct (filter (fun r => str_eqb (fst l) (fst r)) volumes);
      simpl; lia.
  - exists subjects, volumes.
    split; [reflexivity | split; [reflexivity | split; [exact Hn |]]].
    intros Hd. rewrite Hb, Hn, <- Hlen.
    rewrite list_sum_flags.
    + rewrite <- (filter_length
                    (fun l0 => existsb (fun r0 => str_eqb (fst l0) (fst r0))
                                 volumes) subjects).
      f_equal. f_equal. apply filter_ext. intros l0.
      apply filter_pos_exists.
    + intros l0 _.
      rewrite (filter_map_length (str_eqb (fst l0)) fst).
      now apply count_once.
Qed.

Lemma match_report_adds_up_witness :
  n_matched (mkReport 1 [([Text (py "sub-s1"); Text (py "IXI")],
                          Some [Text (py "s1"); Num (7 # 8)])] 1 0
               [([Text (py "sub-s1"); Text (py "IXI")],
                 Some [Text (py "s1"); Num (7 # 8)])])
  + n_missing (mkReport 1 [([Text (py "sub-s1"); Text (py "IXI")],
                            Some [Text (py "s1"); Num (7 # 8)])] 1 0
                 [([Text (py "sub-s1"); Text (py "IXI")],
                   Some [Text (py "s1"); Num (7 # 8)])])
  = 1.
Proof.
  apply (proj1 (match_report_adds_up (fun _ => []) (fun _ => [])
                  (mkDataFrame [py "subject_id"; py "dataset"]
                     [[Text (py "sub-s1"); Text (py "IXI")]])
                  (mkDataFrame [py "subject_id"; py "qc_general grey matter"]
                     [[Text (py "s1"); Num (7 # 8)];
                      [Text (py "s7"); Num (7 # 8)]])
                  _ eq_refl)).
Defined.
